(** * PyDevices: the schema-driven binary structure decoder

    A shallow embedding of [Utils/Tools.py] and [Utils/BinaryParser.py]
    and the properties of the decoder and of the schema validator.

    Python values are modelled as follows.
    - [int] is [Z] (Python integers are unbounded).
    - the text handled by the decoder (hex payloads, decoded strings) is
      [list ascii]; hex payloads are ASCII and [chr] is only ever applied
      to a byte value.
    - an [OrderedDict] is an association list in insertion order; keys
      (field names) are [string].
    - a raised exception is the [Err] case of [result]. *)

From Stdlib Require Import ZArith List Bool Ascii String Lia Arith.
Import ListNotations.

Open Scope Z_scope.

(** ** Python text *)

Definition str := list ascii.

(** Literal text: [txt "8f"] is the Python string ['8f']. *)
Definition txt (s : string) : str := list_ascii_of_string s.

Definition len (s : str) : Z := Z.of_nat (List.length s).

(** Normalisation of one bound of a slice [s[a:b]] on a sequence of
    length [n]: a negative bound counts from the end, and every bound is
    clamped to [0..n]. *)
Definition slice_bound (n i : Z) : Z :=
  if i <? 0 then Z.max 0 (i + n) else Z.min i n.

(** [s[a:b]] *)
Definition py_slice (s : str) (a b : Z) : str :=
  let lo := slice_bound (len s) a in
  let hi := slice_bound (len s) b in
  firstn (Z.to_nat (hi - lo)) (skipn (Z.to_nat lo) s).

(** [range(0, stop, step)] for a positive [step]. *)
Definition py_range0 (stop step : Z) : list Z :=
  map (fun k => Z.of_nat k * step)
      (seq 0 (Z.to_nat ((stop + step - 1) / step))).

(** ** Exceptions *)

Inductive error : Type :=
| HexLengthNotEven                      (* BinaryParser.py:37 *)
| HexLengthMismatch                     (* BinaryParser.py:41 *)
| PreviousFieldsDoNotMatch (field : string)   (* BinaryParser.py:125 *)
| NotMultipleOf8 (field : string)       (* BinaryParser.py:143 *)
| ContainerOverflow (field : string)    (* BinaryParser.py:148 *)
| ContainerSizeChanged (field : string) (* BinaryParser.py:153 *)
| ValueError                            (* raised by int(s, 16) and by >> *)
| TypeError
| KeyError.

Inductive result (A : Type) : Type :=
| OK (a : A)
| Err (e : error).
Arguments OK {A} a.
Arguments Err {A} e.

Definition bind {A B} (r : result A) (k : A -> result B) : result B :=
  match r with
  | OK a => k a
  | Err e => Err e
  end.

Notation "x <- r ;; k" := (bind r (fun x => k))
  (at level 61, r at next level, right associativity).

Definition succeeds {A} (r : result A) : Prop := exists a, r = OK a.

(** The errors of the validator (every assertion of [check_struct]) and
    the two input-length assertions of the decoder. *)
Definition is_schema_error (e : error) : bool :=
  match e with
  | PreviousFieldsDoNotMatch _ | NotMultipleOf8 _
  | ContainerOverflow _ | ContainerSizeChanged _ => true
  | _ => false
  end.

Definition is_input_length_error (e : error) : bool :=
  match e with
  | HexLengthNotEven | HexLengthMismatch => true
  | _ => false
  end.

(** ** Tools.py *)

Module Tools.

(** The value of one hexadecimal digit, as [int(c, 16)] reads it. *)
Definition hex_digit (c : ascii) : option Z :=
  let n := Z.of_nat (nat_of_ascii c) in
  if (48 <=? n) && (n <=? 57) then Some (n - 48)
  else if (97 <=? n) && (n <=? 102) then Some (n - 87)
  else if (65 <=? n) && (n <=? 70) then Some (n - 55)
  else None.

Definition is_hex_digit (c : ascii) : bool :=
  match hex_digit c with Some _ => true | None => false end.

(** A hex string: every character is one of 0-9, a-f, A-F. *)
Definition is_hex_string (s : str) : bool := forallb is_hex_digit s.

Fixpoint hex_value (acc : Z) (s : str) : option Z :=
  match s with
  | [] => Some acc
  | c :: s' =>
      match hex_digit c with
      | Some d => hex_value (16 * acc + d) s'
      | None => None
      end
  end.

(** [int(s, 16)] on text made of hex digits.  The empty string raises
    ValueError.  (CPython also accepts surrounding blanks, a sign, a
    [0x] prefix and underscores; the model reports ValueError on these,
    and every statement below is about hex strings.) *)
Definition int16 (s : str) : result Z :=
  match s with
  | [] => Err ValueError
  | _ => match hex_value 0 s with
         | Some n => OK n
         | None => Err ValueError
         end
  end.

(** [get_byte_from_hex(position, hex_string)] *)
Definition get_byte_from_hex (position : Z) (hex_string : str) : result Z :=
  int16 (py_slice hex_string (2 * position) (2 * (position + 1))).

(** [chr(n)] for a byte value. *)
Definition chr (n : Z) : ascii := ascii_of_N (Z.to_N n).

(** [hex_string_to_char_string(hex_string)]: the loop over
    [range(0, int(len(hex_string)/2))] appending one character per byte. *)
Definition hex_string_to_char_string (hex_string : str) : result str :=
  fold_left
    (fun acc byte_n =>
       string <- acc ;;
       b <- get_byte_from_hex byte_n hex_string ;;
       OK (string ++ [chr b]))
    (py_range0 (Z.quot (len hex_string) 2) 1)
    (OK []).

(** [extract_value_from_hex(hex_string, start_bit, length_bits)].
    A negative shift count raises ValueError; with a negative
    [length_bits] the mask [2**length_bits - 1] is a float and [&=]
    raises TypeError. *)
Definition extract_value_from_hex (hex_string : str)
    (start_bit length_bits : Z) : result Z :=
  result <- int16 hex_string ;;
  if start_bit <? 0 then Err ValueError
  else
    let result := Z.shiftr result start_bit in
    if length_bits <? 0 then Err TypeError
    else OK (Z.land result (2 ^ length_bits - 1)).

(** [convert_endianess(hex_string)] *)
Definition convert_endianess (hex_string : str) : str :=
  let length := len hex_string in
  fold_left
    (fun result i => result ++ py_slice hex_string (length - i - 2) (length - i))
    (py_range0 length 2)
    [].

(** The uppercase hexadecimal digit of a value below 16. *)
Definition hex_char_upper (d : Z) : ascii :=
  nth (Z.to_nat d) (txt "0123456789ABCDEF") "0"%char.

(** The hexadecimal digits of a non-negative integer, most significant
    first (at least one digit). *)
Fixpoint hex_digits_upper (fuel : nat) (n : Z) (acc : str) : str :=
  match fuel with
  | O => acc
  | S fuel' =>
      let acc' := hex_char_upper (n mod 16) :: acc in
      if n / 16 =? 0 then acc' else hex_digits_upper fuel' (n / 16) acc'
  end.

(** ['{:02X}'.format(n)]: uppercase hexadecimal, zero-padded to two
    characters; the sign of a negative number counts in the width. *)
Definition format_02X (n : Z) : str :=
  let digits m := hex_digits_upper (S (Z.to_nat (Z.log2 m))) m [] in
  if n <? 0 then
    "-"%char :: digits (- n)
  else
    let ds := digits n in
    match ds with
    | [_] => "0"%char :: ds
    | _ => ds
    end.

(** [to_word_little_endian(number)] *)
Definition to_word_little_endian (number : Z) : str :=
  format_02X (Z.land number 255)
  ++ format_02X (Z.land (Z.shiftr number 8) 255).

(** [to_string_little_endian(number, length_bytes)] *)
Definition to_string_little_endian (number length_bytes : Z) : str :=
  fold_left
    (fun hex_str i =>
       hex_str ++ format_02X (Z.land (Z.shiftr number (8 * i)) 255))
    (py_range0 length_bytes 1)
    [].

End Tools.

(** ** BinaryParser.py *)

(** Decoded values: integers, text (array hex text and strings) and the
    nested ordered mapping of a struct field; a handler may return any
    of them. *)
#[warnings="-register-all"]
Inductive value : Type :=
| VInt (n : Z)
| VStr (s : str)
| VDict (d : list (string * value)).

Definition odict := list (string * value).

(** The optional third element of a field tuple.  A callable may raise. *)
Definition handler := value -> result value.

(** What a schema stores under a field name:
    - [Simple w]: the integer [w] (a byte-sized field, e.g. TYPE_8_BITS);
    - [Packed w c h]: the tuple [(w, c)] with an integer container [c];
    - [TypeArray bits h]: [(bits, TYPE_ARRAY)];
    - [TypeString bits h]: [(bits, TYPE_STRING)];
    - [TypeStruct sub h]: [(sub, TYPE_STRUCT)].
    [h] is the third tuple element when it is present and callable. *)
#[warnings="-register-all"]
Inductive descr : Type :=
| Simple (width : Z)
| Packed (width container : Z) (h : option handler)
| TypeArray (bits : Z) (h : option handler)
| TypeString (bits : Z) (h : option handler)
| TypeStruct (sub : list (string * descr)) (h : option handler).

(** A schema is an OrderedDict from field names to descriptors. *)
Definition schema := list (string * descr).

Definition handler_of (d : descr) : option handler :=
  match d with
  | Simple _ => None
  | Packed _ _ h | TypeArray _ h | TypeString _ h | TypeStruct _ h => h
  end.

Definition TYPE_8_BITS : Z := 8.
Definition TYPE_16_BITS : Z := 16.
Definition TYPE_32_BITS : Z := 32.

(** *** OrderedDict operations *)

Fixpoint od_get {A} (k : string) (d : list (string * A)) : option A :=
  match d with
  | [] => None
  | (k', v) :: d' => if String.eqb k k' then Some v else od_get k d'
  end.

(** [d[k] = v]: an existing key keeps its position, a new key is
    appended. *)
Fixpoint od_set {A} (k : string) (v : A) (d : list (string * A))
  : list (string * A) :=
  match d with
  | [] => [(k, v)]
  | (k', v') :: d' =>
      if String.eqb k k' then (k, v) :: d' else (k', v') :: od_set k v d'
  end.

(** Keys of a dictionary are pairwise distinct. *)
Fixpoint keys_unique {A} (d : list (string * A)) : bool :=
  match d with
  | [] => true
  | (k, _) :: d' =>
      match od_get k d' with
      | Some _ => false
      | None => keys_unique d'
      end
  end.

(** *** check_struct *)

Section CheckLoop.

(** The recursive call [check_struct(fields[field_name][0])] made for
    a struct field; the knot is tied in [struct_length] below. *)
Variable check_nested : descr -> result Z.

(** State of the loop of [check_struct]. *)
Record check_state : Type := mkCheck {
  total_length_sum_bits : Z;
  chk_packed_field_offset : Z;
  prev_container_length : Z
}.

(** One iteration of the loop (lines 120-159). *)
Definition check_field (st : check_state) (field_name : string)
    (d : descr) : result check_state :=
  let is_first_field := chk_packed_field_offset st =? 0 in
  lens <-
    match d with
    | Simple w =>
        if chk_packed_field_offset st =? 0 then OK (w, w)
        else Err (PreviousFieldsDoNotMatch field_name)
    | TypeArray bits _ | TypeString bits _ => OK (bits, bits)
    | TypeStruct _ _ =>
        field_length <- check_nested d ;;
        OK (field_length, field_length)
    | Packed w container_info _ => OK (w, container_info)
    end ;;
  let '(field_length, current_container_length) := lens in
  if negb (current_container_length mod 8 =? 0)
  then Err (NotMultipleOf8 field_name)
  else
    let packed_field_offset := chk_packed_field_offset st + field_length in
    if packed_field_offset >? current_container_length
    then Err (ContainerOverflow field_name)
    else if packed_field_offset <? current_container_length
    then
      if negb is_first_field
         && negb (prev_container_length st =? current_container_length)
      then Err (ContainerSizeChanged field_name)
      else OK (mkCheck (total_length_sum_bits st) packed_field_offset
                       current_container_length)
    else OK (mkCheck (total_length_sum_bits st + packed_field_offset) 0
                     current_container_length).

Fixpoint check_loop (fields : schema) (st : check_state)
  : result check_state :=
  match fields with
  | [] => OK st
  | (field_name, d) :: rest =>
      st' <- check_field st field_name d ;;
      check_loop rest st'
  end.

End CheckLoop.

(** [check_struct(d[0])] for a struct field [d].  The recursion of
    [check_struct] goes through the descriptors of its fields, so it is
    defined by recursion on the descriptor. *)
Fixpoint struct_length (d : descr) : result Z :=
  match d with
  | TypeStruct sub _ =>
      st <- check_loop (fun d' => struct_length d') sub (mkCheck 0 0 0) ;;
      OK (total_length_sum_bits st)
  | _ => Err TypeError
  end.

(** [check_struct(fields)]: the structure length in bits. *)
Definition check_struct (fields : schema) : result Z :=
  st <- check_loop struct_length fields (mkCheck 0 0 0) ;;
  OK (total_length_sum_bits st).

(** *** parse_struct_from_hex *)

(** State of the decoding loop.  [container_value] is [None] in the
    source before the loop; since [first_packed_field] starts [True] the
    first iteration assigns it before any use, so the model starts from
    the empty text. *)
Record parse_state : Type := mkParse {
  fields_parsed : odict;
  container_fields_offset : Z;
  packed_field_offset : Z;
  first_packed_field : bool;
  container_value : str
}.

Definition parse_init : parse_state := mkParse [] 0 0 true [].

Section ParseLoop.

(** The recursive call [parse_struct_from_hex(fields[field][0], ...)]
    made for a struct field; the knot is tied in [parse_nested]. *)
Variable parse_rec : descr -> str -> result odict.

Variable hex_string : str.

(** Lines 62-73: (container_field_length, packed_field_length). *)
Definition field_lengths (d : descr) : result (Z * Z) :=
  match d with
  | Simple w => OK (w, w)
  | TypeArray bits _ | TypeString bits _ => OK (bits, bits)
  | TypeStruct _ _ => l <- struct_length d ;; OK (l, l)
  | Packed w c _ => OK (c, w)
  end.

(** Lines 76-83.  [int(x/4)] truncates the quotient toward zero;
    [int(start + length/4)] is the truncation of [(4*start + length)/4]
    (the float quotients are exact for any offset a payload can reach). *)
Definition extract_container (st : parse_state)
    (container_field_length : Z) : parse_state :=
  if first_packed_field st then
    let container_start_char := Z.quot (container_fields_offset st) 4 in
    let container_end_char :=
      Z.quot (4 * container_start_char + container_field_length) 4 in
    mkParse (fields_parsed st)
            (container_fields_offset st + container_field_length)
            0
            true
            (py_slice hex_string container_start_char container_end_char)
  else st.

(** Lines 86-95: [fields_parsed[field] = ...]. *)
Definition extract_field (st : parse_state) (field : string) (d : descr)
    (packed_field_length : Z) : result parse_state :=
  let store v cv :=
    mkParse (od_set field v (fields_parsed st))
            (container_fields_offset st) (packed_field_offset st)
            (first_packed_field st) cv in
  match d with
  | TypeArray _ _ =>
      OK (store (VStr (container_value st)) (container_value st))
  | TypeString _ _ =>
      s <- Tools.hex_string_to_char_string (container_value st) ;;
      OK (store (VStr s) (container_value st))
  | TypeStruct _ _ =>
      r <- parse_rec d (container_value st) ;;
      OK (store (VDict r) (container_value st))
  | Simple _ | Packed _ _ _ =>
      let cv :=
        if first_packed_field st
        then Tools.convert_endianess (container_value st)
        else container_value st in
      v <- Tools.extract_value_from_hex cv (packed_field_offset st)
             packed_field_length ;;
      OK (store (VInt v) cv)
  end.

(** Lines 98-99: the handler replaces the stored value. *)
Definition run_handler (st : parse_state) (field : string) (d : descr)
  : result parse_state :=
  match handler_of d with
  | None => OK st
  | Some h =>
      match od_get field (fields_parsed st) with
      | None => Err KeyError
      | Some v =>
          v' <- h v ;;
          OK (mkParse (od_set field v' (fields_parsed st))
                      (container_fields_offset st) (packed_field_offset st)
                      (first_packed_field st) (container_value st))
      end
  end.

(** One iteration of the loop (lines 48-104). *)
Definition parse_field (st : parse_state) (field : string) (d : descr)
  : result parse_state :=
  lens <- field_lengths d ;;
  let '(container_field_length, packed_field_length) := lens in
  let st1 := extract_container st container_field_length in
  st2 <- extract_field st1 field d packed_field_length ;;
  st3 <- run_handler st2 field d ;;
  let offset := packed_field_offset st3 + packed_field_length in
  OK (mkParse (fields_parsed st3) (container_fields_offset st3)
              offset (offset =? container_field_length)
              (container_value st3)).

Fixpoint parse_loop (fields : schema) (st : parse_state)
  : result parse_state :=
  match fields with
  | [] => OK st
  | (field, d) :: rest =>
      st' <- parse_field st field d ;;
      parse_loop rest st'
  end.

(** Lines 34-43: the two assertions made before the loop. *)
Definition check_input (fields : schema) : result unit :=
  let total_length_string := len hex_string in
  if negb (total_length_string mod 2 =? 0) then Err HexLengthNotEven
  else
    struct_length <- check_struct fields ;;
    if negb (struct_length =? total_length_string * 4)
    then Err HexLengthMismatch
    else OK tt.

Definition parse_body (fields : schema) : result odict :=
  _ <- check_input fields ;;
  st <- parse_loop fields parse_init ;;
  OK (fields_parsed st).

End ParseLoop.

(** [parse_struct_from_hex(d[0], hex_string)] for a struct field [d]. *)
Fixpoint parse_nested (d : descr) (hex_string : str) : result odict :=
  match d with
  | TypeStruct sub _ =>
      parse_body (fun d' h' => parse_nested d' h') hex_string sub
  | _ => Err TypeError
  end.

(** [parse_struct_from_hex(fields, hex_string)] *)
Definition parse_struct_from_hex (fields : schema) (hex_string : str)
  : result odict :=
  parse_body parse_nested hex_string fields.

(** ** Well-formed schemas

    The invariants of the data model: container widths are positive
    multiples of 8 (the widths 8, 16 and 32 in particular), the packed
    fields of one container have non-negative widths that add up to the
    container width exactly, with no container left open at the end, and
    arrays, strings and nested structs start at a container boundary and
    cover whole bytes. *)

Inductive container_state : Type :=
| Closed
| Open (offset container : Z).

Definition container_width_ok (c : Z) : bool := (0 <? c) && (c mod 8 =? 0).

Section WellFormed.

Variable nested_ok : descr -> bool.

Definition wf_step (cs : container_state) (d : descr)
  : option container_state :=
  match d, cs with
  | Simple w, Closed =>
      if container_width_ok w then Some Closed else None
  | Packed w c _, Closed =>
      if container_width_ok c && (0 <=? w) && (w <=? c)
      then Some (if w =? c then Closed else Open w c)
      else None
  | Packed w c _, Open o c0 =>
      if container_width_ok c && (c =? c0) && (0 <=? w) && (o + w <=? c)
      then Some (if o + w =? c then Closed else Open (o + w) c)
      else None
  | TypeArray bits _, Closed | TypeString bits _, Closed =>
      if (0 <=? bits) && (bits mod 8 =? 0) then Some Closed else None
  | TypeStruct _ _, Closed =>
      if nested_ok d then Some Closed else None
  | _, Open _ _ => None
  end.

Fixpoint wf_run (fields : schema) (cs : container_state)
  : option container_state :=
  match fields with
  | [] => Some cs
  | (_, d) :: rest =>
      match wf_step cs d with
      | Some cs' => wf_run rest cs'
      | None => None
      end
  end.

Definition wf_closed (fields : schema) : bool :=
  match wf_run fields Closed with
  | Some Closed => true
  | _ => false
  end.

End WellFormed.

Fixpoint struct_ok (d : descr) : bool :=
  match d with
  | TypeStruct sub _ => wf_closed (fun d' => struct_ok d') sub
  | _ => false
  end.

Definition well_formed (fields : schema) : bool := wf_closed struct_ok fields.

(** The values the decoder stores for a field before its handler runs:
    an integer for a numeric field, text for an array or a string, a
    mapping for a struct. *)
Definition raw_value_of (d : descr) (v : value) : Prop :=
  match d, v with
  | Simple _, VInt _ | Packed _ _ _, VInt _ => True
  | TypeArray _ _, VStr _ | TypeString _ _, VStr _ => True
  | TypeStruct _ _, VDict _ => True
  | _, _ => False
  end.

(** The values the decoder can store for a field before its handler
    runs: for a numeric field of width [w] an integer below [2**w]; for
    an array its hex text; for a string the text decoded from hex text
    of its size; for a struct a mapping decoded by the nested schema. *)
Definition decoded_value_of (d : descr) (v : value) : Prop :=
  match d, v with
  | Simple w, VInt n | Packed w _ _, VInt n => 0 <= n < 2 ^ w
  | TypeArray bits _, VStr s =>
      Tools.is_hex_string s = true /\ 4 * len s = bits
  | TypeString bits _, VStr s =>
      exists cv, Tools.is_hex_string cv = true /\ 4 * len cv = bits
                 /\ Tools.hex_string_to_char_string cv = OK s
  | TypeStruct sub _, VDict r =>
      exists hex, Tools.is_hex_string hex = true
                  /\ parse_struct_from_hex sub hex = OK r
  | _, _ => False
  end.

(** No handler of the schema raises on a value the decoder can store
    for its field. *)
Fixpoint handlers_accept_descr (d : descr) : Prop :=
  match handler_of d with
  | Some h => forall v, decoded_value_of d v -> succeeds (h v)
  | None => True
  end /\
  match d with
  | TypeStruct sub _ =>
      (fix all (fs : list (string * descr)) : Prop :=
         match fs with
         | [] => True
         | (_, d') :: rest => handlers_accept_descr d' /\ all rest
         end) sub
  | _ => True
  end.

Definition handlers_accept (fields : schema) : Prop :=
  Forall (fun p => handlers_accept_descr (snd p)) fields.

(** A lookup handler for a 5-bit field, [lambda x: table[x]] with a
    table of 32 entries (here the doubles): raises on any other value. *)
Definition lookup_5_bits : handler :=
  fun x =>
    match x with
    | VInt n => if (0 <=? n) && (n <? 32) then OK (VInt (2 * n))
                else Err KeyError
    | _ => Err TypeError
    end.

(** [lambda x: x + "V"]: raises TypeError on an integer. *)
Definition append_unit : handler :=
  fun x =>
    match x with
    | VStr s => OK (VStr (s ++ txt "V"))
    | _ => Err TypeError
    end.

(** ** Container widths occurring in a schema *)

Section ContainerWidths.

Variable selected : Z -> bool.

(** Some simple field or packed container of the descriptor, at any
    nesting depth, declares a container width picked by [selected]. *)
Fixpoint descr_has_container (d : descr) : bool :=
  match d with
  | Simple w => selected w
  | Packed _ c _ => selected c
  | TypeArray _ _ | TypeString _ _ => false
  | TypeStruct sub _ =>
      (fix any (fs : list (string * descr)) : bool :=
         match fs with
         | [] => false
         | (_, d') :: rest => descr_has_container d' || any rest
         end) sub
  end.

Definition schema_has_container (fields : schema) : bool :=
  existsb (fun p => descr_has_container (snd p)) fields.

End ContainerWidths.

Definition not_8_16_32 (c : Z) : bool :=
  negb ((c =? 8) || (c =? 16) || (c =? 32)).

Definition not_multiple_of_8 (c : Z) : bool := negb (c mod 8 =? 0).

(** The descriptor with its handler removed. *)
Definition without_handler (d : descr) : descr :=
  match d with
  | Simple w => Simple w
  | Packed w c _ => Packed w c None
  | TypeArray bits _ => TypeArray bits None
  | TypeString bits _ => TypeString bits None
  | TypeStruct sub _ => TypeStruct sub None
  end.

(** ** The schema and payload of [BinaryParserTester.test_hex_parser] *)

Module Canonical.

Open Scope string_scope.

Definition sub_struct_format : schema :=
  [ ("sub_field_1", Simple TYPE_8_BITS);
    ("sub_field_2", Packed 7 TYPE_16_BITS None);
    ("sub_field_3", Packed 9 TYPE_16_BITS None);
    ("sub_field_4", TypeString (7 * TYPE_8_BITS) None) ].

(** [lambda x: "ONE" if x == 1 else "NOT ONE"] *)
Definition one_or_not : handler :=
  fun x =>
    match x with
    | VInt 1 => OK (VStr (txt "ONE"))
    | _ => OK (VStr (txt "NOT ONE"))
    end.

(** [lambda x: x+1] *)
Definition plus_one : handler :=
  fun x =>
    match x with
    | VInt n => OK (VInt (n + 1))
    | _ => Err TypeError
    end.

Definition fields : schema :=
  [ ("field1", Simple TYPE_8_BITS);
    ("field2", Packed 5 TYPE_8_BITS (Some one_or_not));
    ("field3", Packed 3 TYPE_8_BITS None);
    ("field4", Packed 12 TYPE_16_BITS (Some plus_one));
    ("field5", Packed 4 TYPE_16_BITS None);
    ("sub_struct_0", TypeStruct sub_struct_format None);
    ("sub_struct_1", TypeStruct sub_struct_format None);
    ("sub_struct_2", TypeStruct sub_struct_format None);
    ("field6", Simple TYPE_16_BITS);
    ("field7", TypeString (7 * TYPE_8_BITS) None) ].

Definition hex_string : str :=
  txt ("8fe37156"
       ++ "f87ae5" ++ "31206162632031"
       ++ "a87ae3" ++ "32206162632032"
       ++ "f87ae5" ++ "33206162632033"
       ++ "11ff"
       ++ "55727567756179").

End Canonical.

(** Lookup in a nested result: [structure[k1][k2]]. *)
Definition od_get2 (k1 k2 : string) (d : odict) : option value :=
  match od_get k1 d with
  | Some (VDict d') => od_get k2 d'
  | _ => None
  end.

(** ** Invariants relating the validator, the decoder and the layout *)

Definition cs_offset (cs : container_state) : Z :=
  match cs with Closed => 0 | Open o _ => o end.

(** Bits of the open container, already counted by the decoder's
    [container_fields_offset] and not yet by the validator's total. *)
Definition cs_pending (cs : container_state) : Z :=
  match cs with Closed => 0 | Open _ c => c end.

Definition cs_ok (cs : container_state) : Prop :=
  match cs with
  | Closed => True
  | Open o c => 0 <= o < c /\ c mod 8 = 0
  end.

Definition cs_next (cs : container_state) (cw pw : Z) : container_state :=
  if cs_offset cs + pw =? cw then Closed else Open (cs_offset cs + pw) cw.

(** What a layout step says about a field: its container length [cw]
    and packed length [pw] as the decoder computes them. *)
Definition step_facts (cs : container_state) (d : descr) (cw pw : Z) : Prop :=
  field_lengths d = OK (cw, pw)
  /\ 0 <= pw /\ cs_offset cs + pw <= cw /\ 0 <= cw /\ cw mod 8 = 0
  /\ (forall o c, cs = Open o c -> cw = c)
  /\ match d with
     | Simple _ => cs = Closed /\ 0 < cw /\ pw = cw
     | Packed _ _ _ => 0 < cw
     | _ => cs = Closed /\ pw = cw
     end.

Definition check_agrees (cs : container_state) (st : check_state) : Prop :=
  chk_packed_field_offset st = cs_offset cs
  /\ (forall o c, cs = Open o c -> prev_container_length st = c).

Definition parse_agrees (cs : container_state) (total : Z) (st : parse_state)
  : Prop :=
  container_fields_offset st = total + cs_pending cs
  /\ match cs with
     | Closed => first_packed_field st = true
     | Open o _ => first_packed_field st = false /\ packed_field_offset st = o
     end.

(** The container text held while a container is open. *)
Definition container_text_ok (cs : container_state) (st : parse_state) : Prop :=
  match cs with
  | Closed => True
  | Open _ _ =>
      Tools.is_hex_string (container_value st) = true
      /\ container_value st <> []
  end.

(** The loop state with [fields_parsed[k]] replaced by [x]. *)
Definition with_field (k : string) (x : value) (st : parse_state)
  : parse_state :=
  mkParse (od_set k x (fields_parsed st)) (container_fields_offset st)
          (packed_field_offset st) (first_packed_field st)
          (container_value st).

(** ** Induction on nested schemas *)

Section DescrInduction.

Variable P : descr -> Prop.
Hypothesis HSimple : forall w, P (Simple w).
Hypothesis HPacked : forall w c h, P (Packed w c h).
Hypothesis HArray : forall bits h, P (TypeArray bits h).
Hypothesis HString : forall bits h, P (TypeString bits h).
Hypothesis HStruct :
  forall sub h, Forall (fun p => P (snd p)) sub -> P (TypeStruct sub h).

Fixpoint descr_nested_ind (d : descr) : P d :=
  match d with
  | Simple w => HSimple w
  | Packed w c h => HPacked w c h
  | TypeArray bits h => HArray bits h
  | TypeString bits h => HString bits h
  | TypeStruct sub h =>
      HStruct sub h
        ((fix go (fs : list (string * descr))
            : Forall (fun p => P (snd p)) fs :=
            match fs with
            | [] => Forall_nil _
            | (name, d') :: rest =>
                Forall_cons (name, d') (descr_nested_ind d') (go rest)
            end) sub)
  end.

End DescrInduction.

(** The nested struct of a field validates to a whole number of bytes. *)
Definition nested_lengths_ok (d : descr) : Prop :=
  forall sub h, d = TypeStruct sub h -> well_formed sub = true ->
    exists n, check_struct sub = OK n /\ 0 <= n /\ n mod 8 = 0.

(** The cursors are left alone by the extraction and by the handler. *)
Definition same_cursors (st st' : parse_state) : Prop :=
  container_fields_offset st' = container_fields_offset st
  /\ packed_field_offset st' = packed_field_offset st
  /\ first_packed_field st' = first_packed_field st.

Definition is_numeric (d : descr) : bool :=
  match d with
  | Simple _ | Packed _ _ _ => true
  | _ => false
  end.

(** The nested struct of a field decodes every payload of its length. *)
Definition nested_decodes (d : descr) : Prop :=
  forall sub h, d = TypeStruct sub h ->
    well_formed sub = true -> handlers_accept sub ->
    forall hex n, Tools.is_hex_string hex = true ->
      check_struct sub = OK n -> 4 * len hex = n ->
      succeeds (parse_struct_from_hex sub hex).

(** A handler on an array, on a string and on a struct. *)
Definition text_length : handler :=
  fun x =>
    match x with
    | VStr s => OK (VInt (len s))
    | VDict d => OK (VInt (Z.of_nat (List.length d)))
    | VInt _ => Err TypeError
    end.

(** The validator state with [a] more bits counted. *)
Definition add_total (a : Z) (st : check_state) : check_state :=
  mkCheck (a + total_length_sum_bits st) (chk_packed_field_offset st)
          (prev_container_length st).

(** The loop state as it is when the same fields are decoded after
    other fields: [r1] already stored and [off] bits already consumed. *)
Definition shift_state (r1 : odict) (off : Z) (st : parse_state)
  : parse_state :=
  mkParse (r1 ++ fields_parsed st) (off + container_fields_offset st)
          (packed_field_offset st) (first_packed_field st)
          (container_value st).

(** ** Proof automation *)

Ltac split_ands :=
  repeat match goal with
         | |- _ /\ _ => split
         end.

Ltac break_andb :=
  repeat match goal with
         | H : _ && _ = true |- _ => apply andb_prop in H; destruct H
         end.

(** * Properties *)

Example convert_endianess_test_1 :
  Tools.convert_endianess (txt "0f512332") = txt "3223510f".
Proof. reflexivity. Qed.

Example convert_endianess_test_2 :
  Tools.convert_endianess (txt "12345abcdeff") = txt "ffdebc5a3412".
Proof. reflexivity. Qed.

Example convert_endianess_odd :
  Tools.convert_endianess (txt "abc") = txt "bc".
Proof. reflexivity. Qed.

Example extract_value_test_1 :
  Tools.extract_value_from_hex (txt "0552") 7 3 = OK 2.
Proof. reflexivity. Qed.

Example extract_value_test_2 :
  Tools.extract_value_from_hex (txt "9ff2") 8 8 = OK 159.
Proof. reflexivity. Qed.

Example extract_value_test_3 :
  Tools.extract_value_from_hex (txt "0f521236") 12 16 = OK 62753.
Proof. reflexivity. Qed.

(** ** Slices and ranges *)

Lemma len_nonneg (s : str) : 0 <= len s.
Proof. unfold len. lia. Qed.

Lemma len_cons (a : ascii) (s : str) : len (a :: s) = len s + 1.
Proof. unfold len. cbn [List.length]. lia. Qed.

Lemma len_app (s t : str) : len (s ++ t) = len s + len t.
Proof. unfold len. rewrite length_app. lia. Qed.

Lemma py_slice_in_range (s : str) (lo hi : Z) :
  0 <= lo <= hi -> hi <= len s ->
  py_slice s lo hi = firstn (Z.to_nat (hi - lo)) (skipn (Z.to_nat lo) s).
Proof.
  intros Hlo Hhi. unfold py_slice, slice_bound.
  destruct (Z.ltb_spec lo 0); [lia|].
  destruct (Z.ltb_spec hi 0); [lia|].
  rewrite !Z.min_l by lia. reflexivity.
Qed.

Lemma py_slice_length (s : str) (lo hi : Z) :
  0 <= lo <= hi -> hi <= len s -> len (py_slice s lo hi) = hi - lo.
Proof.
  intros Hlo Hhi. rewrite py_slice_in_range by assumption.
  unfold len in *. rewrite length_firstn, length_skipn. lia.
Qed.

Lemma py_slice_all (s : str) : py_slice s 0 (len s) = s.
Proof.
  pose proof (len_nonneg s).
  rewrite py_slice_in_range by lia.
  cbn [Z.to_nat skipn]. unfold len. rewrite Z.sub_0_r, Nat2Z.id.
  apply firstn_all.
Qed.

Lemma py_slice_skip2 (a b : ascii) (t : str) (lo hi : Z) :
  0 <= lo <= hi -> hi <= len t ->
  py_slice (a :: b :: t) (lo + 2) (hi + 2) = py_slice t lo hi.
Proof.
  intros Hlo Hhi.
  rewrite !py_slice_in_range by (rewrite ?len_cons; lia).
  replace (hi + 2 - (lo + 2)) with (hi - lo) by lia.
  replace (Z.to_nat (lo + 2)) with (S (S (Z.to_nat lo))) by lia.
  reflexivity.
Qed.

Lemma py_slice_head2 (a b : ascii) (t : str) :
  py_slice (a :: b :: t) 0 2 = [a; b].
Proof.
  pose proof (len_nonneg t).
  rewrite py_slice_in_range by (rewrite ?len_cons; lia). reflexivity.
Qed.

Lemma py_range0_step2 (n : nat) :
  py_range0 (2 * Z.of_nat n) 2 = map (fun k => Z.of_nat k * 2) (seq 0 n).
Proof.
  unfold py_range0.
  replace ((2 * Z.of_nat n + 2 - 1) / 2) with (Z.of_nat n).
  - rewrite Nat2Z.id. reflexivity.
  - apply Z.div_unique with (r := 1); lia.
Qed.

Lemma py_range0_step1 (n : nat) :
  py_range0 (Z.of_nat n) 1 = map Z.of_nat (seq 0 n).
Proof.
  unfold py_range0.
  replace (Z.of_nat n + 1 - 1) with (Z.of_nat n) by lia.
  rewrite Z.div_1_r, Nat2Z.id.
  apply map_ext. intros k. lia.
Qed.

(** Induction over a text two characters at a time. *)
Lemma str_pair_ind (P : str -> Prop) :
  P [] ->
  (forall a b t, Nat.even (List.length t) = true -> P t -> P (a :: b :: t)) ->
  forall s, Nat.even (List.length s) = true -> P s.
Proof.
  intros Hnil Hstep.
  fix IH 1. intros [|a [|b t]] Hev.
  - exact Hnil.
  - discriminate Hev.
  - apply Hstep; [exact Hev|]. apply IH. exact Hev.
Qed.

Lemma even_length_half (s : str) :
  Nat.even (List.length s) = true ->
  exists n, List.length s = (2 * n)%nat.
Proof.
  intros H. apply Nat.even_spec in H. destruct H as [n Hn]. eauto.
Qed.

Lemma len_even_iff (s : str) :
  len s mod 2 = 0 <-> Nat.even (List.length s) = true.
Proof.
  unfold len. rewrite Nat.even_spec. split.
  - intros H. exists (Z.to_nat (Z.of_nat (List.length s) / 2)).
    apply Nat2Z.inj. rewrite Nat2Z.inj_mul, Z2Nat.id.
    + change (Z.of_nat 2) with 2.
      rewrite (Z.div_mod (Z.of_nat (List.length s)) 2) at 1 by lia. lia.
    + apply Z.div_pos; lia.
  - intros [n Hn]. rewrite Hn, Nat2Z.inj_mul.
    change (Z.of_nat 2) with 2. rewrite Z.mul_comm. apply Z_mod_mult.
Qed.

(** ** convert_endianess *)

Lemma fold_left_app_acc (f : Z -> str) (l : list Z) (acc : str) :
  fold_left (fun result i => result ++ f i) l acc
  = acc ++ fold_left (fun result i => result ++ f i) l [].
Proof.
  revert acc. induction l as [|i l IH]; intros acc; cbn [fold_left].
  - now rewrite app_nil_r.
  - rewrite IH. rewrite (IH ([] ++ f i)). cbn [app]. now rewrite app_assoc.
Qed.

Lemma fold_left_slices_ext (f g : Z -> str) (l : list Z) (acc : str) :
  (forall i, In i l -> f i = g i) ->
  fold_left (fun result i => result ++ f i) l acc
  = fold_left (fun result i => result ++ g i) l acc.
Proof.
  revert acc. induction l as [|i l IH]; intros acc Hfg; cbn [fold_left].
  - reflexivity.
  - rewrite (Hfg i) by now left. apply IH. intros j Hj. apply Hfg. now right.
Qed.

(** The bytes of a two-byte-longer text: the first byte comes last. *)
Lemma convert_endianess_cons2 (a b : ascii) (t : str) :
  Nat.even (List.length t) = true ->
  Tools.convert_endianess (a :: b :: t) = Tools.convert_endianess t ++ [a; b].
Proof.
  intros Hev. destruct (even_length_half t Hev) as [n Hn].
  unfold Tools.convert_endianess. cbv zeta.
  assert (Hlt : len t = 2 * Z.of_nat n) by (unfold len; lia).
  assert (Hl : len (a :: b :: t) = 2 * Z.of_nat (S n))
    by (rewrite !len_cons; lia).
  rewrite Hl, Hlt, !py_range0_step2.
  rewrite seq_S, map_app, fold_left_app. cbn [map fold_left Nat.add].
  f_equal.
  - apply fold_left_slices_ext. intros i Hi.
    apply in_map_iff in Hi. destruct Hi as [k [<- Hk]].
    apply in_seq in Hk.
    replace (2 * Z.of_nat (S n) - Z.of_nat k * 2 - 2)
      with ((2 * Z.of_nat n - Z.of_nat k * 2 - 2) + 2) by lia.
    replace (2 * Z.of_nat (S n) - Z.of_nat k * 2)
      with ((2 * Z.of_nat n - Z.of_nat k * 2) + 2) by lia.
    apply py_slice_skip2; lia.
  - replace (2 * Z.of_nat (S n) - Z.of_nat n * 2 - 2) with 0 by lia.
    replace (2 * Z.of_nat (S n) - Z.of_nat n * 2) with 2 by lia.
    apply py_slice_head2.
Qed.

Lemma convert_endianess_nil : Tools.convert_endianess [] = [].
Proof. reflexivity. Qed.

Lemma convert_endianess_snoc2 (t : str) (a b : ascii) :
  Nat.even (List.length t) = true ->
  Tools.convert_endianess (t ++ [a; b]) = a :: b :: Tools.convert_endianess t.
Proof.
  revert t. apply (str_pair_ind (fun t =>
    Tools.convert_endianess (t ++ [a; b]) = a :: b :: Tools.convert_endianess t)).
  - reflexivity.
  - intros x y t Hev IH. cbn [app].
    rewrite !convert_endianess_cons2; [|exact Hev|].
    + rewrite IH. reflexivity.
    + rewrite length_app. cbn [List.length].
      rewrite Nat.add_comm. exact Hev.
Qed.

Lemma convert_endianess_length (s : str) :
  Nat.even (List.length s) = true ->
  List.length (Tools.convert_endianess s) = List.length s.
Proof.
  revert s. apply str_pair_ind.
  - reflexivity.
  - intros a b t Hev IH. rewrite convert_endianess_cons2 by exact Hev.
    rewrite length_app, IH. cbn [List.length]. lia.
Qed.

Lemma convert_endianess_hex (s : str) :
  Nat.even (List.length s) = true ->
  Tools.is_hex_string s = true ->
  Tools.is_hex_string (Tools.convert_endianess s) = true.
Proof.
  revert s. apply (str_pair_ind (fun s => Tools.is_hex_string s = true ->
    Tools.is_hex_string (Tools.convert_endianess s) = true)).
  - reflexivity.
  - intros a b t Hev IH Hhex. rewrite convert_endianess_cons2 by exact Hev.
    unfold Tools.is_hex_string in *. cbn [forallb] in Hhex.
    apply andb_prop in Hhex. destruct Hhex as [Ha Hhex].
    apply andb_prop in Hhex. destruct Hhex as [Hb Hhex].
    rewrite forallb_app, IH by exact Hhex. cbn [forallb].
    now rewrite Ha, Hb.
Qed.

(** C9. [convert_endianess] is an involution on texts of even length
    (hex strings in particular): converting twice gives the text back,
    and a two-character (one-byte) text is left unchanged. *)
Theorem convert_endianess_involutive :
  (forall s : str, len s mod 2 = 0 ->
     Tools.convert_endianess (Tools.convert_endianess s) = s)
  /\ (forall a b : ascii, Tools.convert_endianess [a; b] = [a; b]).
Proof.
  split.
  - intros s Hs. apply len_even_iff in Hs. revert s Hs.
    apply str_pair_ind.
    + reflexivity.
    + intros a b t Hev IH.
      rewrite convert_endianess_cons2 by exact Hev.
      rewrite convert_endianess_snoc2.
      * now rewrite IH.
      * now rewrite convert_endianess_length.
  - intros a b. reflexivity.
Qed.

Lemma convert_endianess_involutive_witness :
  len (txt "f135") mod 2 = 0
  /\ Tools.convert_endianess (Tools.convert_endianess (txt "f135")) = txt "f135".
Proof.
  split.
  - reflexivity.
  - apply (proj1 convert_endianess_involutive). reflexivity.
Defined.

(** ** Decoding of concrete payloads *)

Open Scope string_scope.
Open Scope list_scope.
Open Scope Z_scope.

(** C2. Decoding the payload of [test_hex_parser] with its schema gives
    field1 = 0x8f, field3 = 0b111, field4 = 0x672, field5 = 0x5, the text
    "1 abc 1", "2 abc 2", "3 abc 3" in sub_field_4 of the three
    sub-records, field6 = 0xff11 and field7 = "Uruguay". *)
Theorem canonical_decoding :
  exists structure,
    parse_struct_from_hex Canonical.fields Canonical.hex_string = OK structure
    /\ od_get "field1" structure = Some (VInt 0x8f)
    /\ od_get "field3" structure = Some (VInt 7)
    /\ od_get "field4" structure = Some (VInt 0x672)
    /\ od_get "field5" structure = Some (VInt 0x5)
    /\ od_get2 "sub_struct_0" "sub_field_4" structure
       = Some (VStr (txt "1 abc 1"))
    /\ od_get2 "sub_struct_1" "sub_field_4" structure
       = Some (VStr (txt "2 abc 2"))
    /\ od_get2 "sub_struct_2" "sub_field_4" structure
       = Some (VStr (txt "3 abc 3"))
    /\ od_get "field6" structure = Some (VInt 0xff11)
    /\ od_get "field7" structure = Some (VStr (txt "Uruguay")).
Proof.
  eexists. split.
  - vm_compute. reflexivity.
  - repeat split; reflexivity.
Qed.

(** The remaining assertions of [test_hex_parser]. *)
Example canonical_other_fields :
  forall structure,
    parse_struct_from_hex Canonical.fields Canonical.hex_string = OK structure ->
    od_get "field2" structure = Some (VStr (txt "NOT ONE"))
    /\ od_get2 "sub_struct_0" "sub_field_1" structure = Some (VInt 0xf8)
    /\ od_get2 "sub_struct_0" "sub_field_2" structure = Some (VInt 0x7a)
    /\ od_get2 "sub_struct_0" "sub_field_3" structure = Some (VInt (2 * 0xe5))
    /\ od_get2 "sub_struct_1" "sub_field_1" structure = Some (VInt 0xa8)
    /\ od_get2 "sub_struct_1" "sub_field_3" structure = Some (VInt (2 * 0xe3)).
Proof.
  intros structure H. vm_compute in H. injection H as <-.
  repeat split; reflexivity.
Qed.

(** The extracted value is the bit field of [length_bits] bits that
    starts [start_bit] bits above the least-significant bit. *)
Lemma extract_value_from_hex_spec (s : str) (n start_bit length_bits : Z) :
  Tools.int16 s = OK n -> 0 <= start_bit -> 0 <= length_bits ->
  Tools.extract_value_from_hex s start_bit length_bits
  = OK ((n / 2 ^ start_bit) mod 2 ^ length_bits).
Proof.
  intros Hn Hstart Hlen. unfold Tools.extract_value_from_hex.
  rewrite Hn. cbn [bind].
  destruct (Z.ltb_spec start_bit 0); [lia|].
  destruct (Z.ltb_spec length_bits 0); [lia|].
  f_equal. rewrite Z.shiftr_div_pow2 by lia.
  replace (2 ^ length_bits - 1) with (Z.ones length_bits)
    by (rewrite Z.ones_equiv; lia).
  apply Z.land_ones. lia.
Qed.


(** C4. Endian normalisation reverses bytes, not nibbles:
    convert_endianess("f135") is "35f1", and a single 16-bit simple
    field over the hex text "f135" decodes to 0x35f1. *)
Theorem endianness_f135 :
  Tools.convert_endianess (txt "f135") = txt "35f1"
  /\ parse_struct_from_hex [("value", Simple TYPE_16_BITS)] (txt "f135")
     = OK [("value", VInt 0x35f1)].
Proof. split; vm_compute; reflexivity. Qed.

(** ** check_struct on schemas it should reject *)

(** C6. A packed run left under-filled at the end of the schema is not
    rejected: for the single field Packed(5, 8), [check_struct] returns
    the bit length 0, and decoding the empty payload then fails inside
    the loop on [int('', 16)]. *)
Theorem check_struct_accepts_trailing_underfill :
  check_struct [("a", Packed 5 TYPE_8_BITS None)] = OK 0
  /\ parse_struct_from_hex [("a", Packed 5 TYPE_8_BITS None)] (txt "")
     = Err ValueError.
Proof. split; vm_compute; reflexivity. Qed.

(** The same defect behind a closed container: the length check passes
    and the decoder reads past the payload. *)
Example trailing_underfill_after_container :
  check_struct [("a", Simple TYPE_8_BITS); ("b", Packed 5 TYPE_8_BITS None)]
  = OK 8
  /\ parse_struct_from_hex
       [("a", Simple TYPE_8_BITS); ("b", Packed 5 TYPE_8_BITS None)]
       (txt "ff")
     = Err ValueError.
Proof. split; vm_compute; reflexivity. Qed.

(** A mid-schema under-fill followed by a simple field is rejected. *)
Example underfill_before_simple_rejected :
  check_struct [("a", Packed 5 TYPE_8_BITS None); ("b", Simple TYPE_8_BITS)]
  = Err (PreviousFieldsDoNotMatch "b").
Proof. vm_compute. reflexivity. Qed.

(** C8. A change of container width before the open container is full
    goes undetected when the accumulated offset plus the new width
    equals the new container width: Packed(5, 8) followed by
    Packed(11, 16) is accepted with bit length 16, and the second field is
    then extracted from the 8-bit container of the first. *)
Theorem check_struct_accepts_container_change :
  check_struct [("a", Packed 5 TYPE_8_BITS None);
                ("b", Packed 11 TYPE_16_BITS None)] = OK 16
  /\ parse_struct_from_hex
       [("a", Packed 5 TYPE_8_BITS None); ("b", Packed 11 TYPE_16_BITS None)]
       (txt "abcd")
     = OK [("a", VInt 11); ("b", VInt 5)].
Proof. split; vm_compute; reflexivity. Qed.

(** The alignment check fires when the new container is not filled. *)
Example container_change_rejected :
  check_struct [("a", Packed 5 TYPE_8_BITS None);
                ("b", Packed 3 TYPE_16_BITS None)]
  = Err (ContainerSizeChanged "b").
Proof. vm_compute. reflexivity. Qed.

(** C7, as stated, fails: a simple field of 24 bits declares a container
    width outside 8, 16, 32 and [check_struct] returns its length. *)
Lemma check_struct_accepts_width_24 :
  schema_has_container not_8_16_32 [("a", Simple 24)] = true
  /\ check_struct [("a", Simple 24)] = OK 24.
Proof. split; vm_compute; reflexivity. Qed.

(** A property of every schema follows from its proof for a schema
    whose nested schemas have it. *)
Lemma schema_nested_ind (Q : schema -> Prop) :
  (forall fields,
     Forall (fun p => forall sub h, snd p = TypeStruct sub h -> Q sub) fields ->
     Q fields) ->
  forall fields, Q fields.
Proof.
  intros Hstep fields.
  assert (H : forall d sub h, d = TypeStruct sub h -> Q sub).
  { induction d using descr_nested_ind; try discriminate.
    intros sub' h' Heq. injection Heq as <- <-.
    apply Hstep. exact H. }
  exact (H (TypeStruct fields None) fields None eq_refl).
Qed.

(** ** Unfolding the nested recursions *)

Lemma struct_length_eq (sub : schema) (h : option handler) :
  struct_length (TypeStruct sub h) = check_struct sub.
Proof. reflexivity. Qed.

Lemma parse_nested_eq (sub : schema) (h : option handler) (hex : str) :
  parse_nested (TypeStruct sub h) hex = parse_struct_from_hex sub hex.
Proof. reflexivity. Qed.

Lemma struct_ok_eq (sub : schema) (h : option handler) :
  struct_ok (TypeStruct sub h) = well_formed sub.
Proof. reflexivity. Qed.

Lemma descr_has_container_struct (sel : Z -> bool) (sub : schema)
    (h : option handler) :
  descr_has_container sel (TypeStruct sub h) = schema_has_container sel sub.
Proof.
  cbn [descr_has_container]. unfold schema_has_container.
  induction sub as [|[name d] rest IH]; cbn [existsb snd].
  - reflexivity.
  - now rewrite IH.
Qed.

Lemma handlers_accept_struct (sub : schema) (h : option handler) :
  handlers_accept_descr (TypeStruct sub h) -> handlers_accept sub.
Proof.
  cbn [handlers_accept_descr]. intros [_ H]. unfold handlers_accept.
  induction sub as [|[name d] rest IH].
  - constructor.
  - destruct H as [Hd Hrest]. constructor; [exact Hd | exact (IH Hrest)].
Qed.

Lemma handlers_accept_handler (d : descr) (h : handler) (v : value) :
  handlers_accept_descr d -> handler_of d = Some h -> decoded_value_of d v ->
  succeeds (h v).
Proof.
  intros Ht Hh Hv. destruct d; cbn [handlers_accept_descr] in Ht;
    destruct Ht as [Ht _]; rewrite Hh in Ht; apply Ht; exact Hv.
Qed.

Arguments struct_length : simpl never.
Arguments parse_nested : simpl never.
Arguments struct_ok : simpl never.
Arguments check_struct : simpl never.
Arguments parse_struct_from_hex : simpl never.

(** ** Errors of check_struct *)

Lemma bind_OK {A B} (r : result A) (k : A -> result B) (b : B) :
  bind r k = OK b -> exists a, r = OK a /\ k a = OK b.
Proof. destruct r as [a|e]; cbn; [eauto | discriminate]. Qed.

Lemma bind_Err {A B} (r : result A) (k : A -> result B) (e : error) :
  bind r k = Err e -> r = Err e \/ exists a, r = OK a /\ k a = Err e.
Proof. destruct r as [a|e']; cbn; [eauto | intros [= ->]; now left]. Qed.

(** Every exception raised by one iteration of [check_struct] is one of
    its own assertions or comes from the nested call. *)
Lemma check_field_error (f : descr -> result Z) (st : check_state)
    (name : string) (d : descr) (e : error) :
  check_field f st name d = Err e ->
  is_schema_error e = true
  \/ ((exists sub h, d = TypeStruct sub h) /\ f d = Err e).
Proof.
  unfold check_field. intros H.
  apply bind_Err in H. destruct H as [H | [[fl cl] [Hl H]]].
  - destruct d; try discriminate.
    + destruct (chk_packed_field_offset st =? 0); [discriminate|].
      injection H as <-. now left.
    + apply bind_Err in H. destruct H as [H | [a [_ H]]];
        [right; eauto | discriminate].
  - destruct (negb (cl mod 8 =? 0)); [injection H as <-; now left|].
    destruct (_ >? _); [injection H as <-; now left|].
    destruct (_ <? _); [|discriminate].
    destruct (_ && _); [injection H as <-; now left | discriminate].
Qed.

Lemma check_loop_error (fields : schema) :
  Forall (fun p => forall e, struct_length (snd p) = Err e ->
                   (exists sub h, snd p = TypeStruct sub h) ->
                   is_schema_error e = true) fields ->
  forall st e, check_loop struct_length fields st = Err e ->
               is_schema_error e = true.
Proof.
  induction 1 as [|[name d] rest Hd _ IH]; intros st e H; cbn [check_loop] in H.
  - discriminate.
  - apply bind_Err in H. destruct H as [H | [st' [_ H]]].
    + apply check_field_error in H. destruct H as [H | [Hs H]]; [exact H|].
      cbn [snd] in Hd. exact (Hd e H Hs).
    + exact (IH _ _ H).
Qed.

Lemma check_struct_error (fields : schema) (e : error) :
  check_struct fields = Err e -> is_schema_error e = true.
Proof.
  revert e. induction fields using schema_nested_ind. intros e He.
  unfold check_struct in He. apply bind_Err in He.
  destruct He as [He | [st [_ He]]]; [|discriminate].
  revert He. apply check_loop_error.
  eapply Forall_impl; [|exact H].
  intros [name d] IH e' He' [sub [h Hd]]. cbn [snd] in *. subst d.
  rewrite struct_length_eq in He'. exact (IH sub h eq_refl e' He').
Qed.

(** ** Container widths that are not multiples of 8 *)

Lemma check_field_rejects_width (st : check_state) (name : string) (d : descr) :
  (forall sub h, d = TypeStruct sub h ->
     schema_has_container not_multiple_of_8 sub = true ->
     exists e, check_struct sub = Err e) ->
  descr_has_container not_multiple_of_8 d = true ->
  exists e, check_field struct_length st name d = Err e.
Proof.
  intros IH Hbad. unfold check_field. destruct d as [w|w c h|b h|b h|sub h].
  - cbn [descr_has_container] in Hbad. unfold not_multiple_of_8 in Hbad.
    destruct (chk_packed_field_offset st =? 0); cbn [bind]; [|eauto].
    rewrite Hbad. eauto.
  - cbn [descr_has_container] in Hbad. unfold not_multiple_of_8 in Hbad.
    cbn [bind]. rewrite Hbad. eauto.
  - discriminate.
  - discriminate.
  - rewrite descr_has_container_struct in Hbad.
    destruct (IH sub h eq_refl Hbad) as [e He].
    rewrite struct_length_eq, He. cbn [bind]. eauto.
Qed.

Lemma check_loop_rejects_width (fields : schema) :
  Forall (fun p => forall sub h, snd p = TypeStruct sub h ->
            schema_has_container not_multiple_of_8 sub = true ->
            exists e, check_struct sub = Err e) fields ->
  schema_has_container not_multiple_of_8 fields = true ->
  forall st, exists e, check_loop struct_length fields st = Err e.
Proof.
  unfold schema_has_container.
  induction 1 as [|[name d] rest Hd _ IH]; cbn [existsb snd]; intros Hbad st.
  - discriminate.
  - cbn [check_loop]. cbn [snd] in Hd.
    destruct (check_field struct_length st name d) as [st'|e] eqn:Hstep.
    + cbn [bind]. apply Bool.orb_true_iff in Hbad. destruct Hbad as [Hbad|Hbad].
      * destruct (check_field_rejects_width st name d Hd Hbad) as [e He].
        congruence.
      * exact (IH Hbad st').
    + cbn [bind]. eauto.
Qed.

(** C7, amended. [check_struct] rejects, with one of its schema errors,
    every schema in which a simple field or a packed container, at any
    nesting depth, declares a container width that is not a multiple
    of 8. *)
Theorem check_struct_rejects_non_multiple_of_8 (fields : schema) :
  schema_has_container not_multiple_of_8 fields = true ->
  exists e, check_struct fields = Err e /\ is_schema_error e = true.
Proof.
  intros Hbad.
  assert (H : exists e, check_struct fields = Err e).
  { revert Hbad. induction fields using schema_nested_ind. intros Hbad.
    destruct (check_loop_rejects_width fields) with (st := mkCheck 0 0 0)
      as [e He]; [|exact Hbad|].
    - eapply Forall_impl; [|exact H].
      intros [name d] IH sub h Hd. exact (IH sub h Hd).
    - exists e. unfold check_struct. now rewrite He. }
  destruct H as [e He]. exists e. split; [exact He|].
  exact (check_struct_error _ _ He).
Qed.

Lemma check_struct_rejects_non_multiple_of_8_witness :
  schema_has_container not_multiple_of_8
    [("a", Simple TYPE_8_BITS);
     ("s", TypeStruct [("b", Packed 4 12 None)] None)] = true
  /\ exists e,
       check_struct [("a", Simple TYPE_8_BITS);
                     ("s", TypeStruct [("b", Packed 4 12 None)] None)] = Err e
       /\ is_schema_error e = true.
Proof.
  split.
  - reflexivity.
  - apply check_struct_rejects_non_multiple_of_8. reflexivity.
Defined.

(** ** The validator on well-formed schemas *)

Lemma container_width_ok_spec (c : Z) :
  container_width_ok c = true -> 0 < c /\ c mod 8 = 0.
Proof.
  unfold container_width_ok. intros H. break_andb. split; lia.
Qed.

Lemma wf_step_facts (cs cs' : container_state) (d : descr) :
  (forall sub h, d = TypeStruct sub h -> well_formed sub = true ->
     exists n, check_struct sub = OK n /\ 0 <= n /\ n mod 8 = 0) ->
  wf_step struct_ok cs d = Some cs' ->
  cs_ok cs ->
  exists cw pw, step_facts cs d cw pw /\ cs' = cs_next cs cw pw /\ cs_ok cs'.
Proof.
  intros Hsub Hstep Hok.
  destruct d as [w|w c h|b h|b h|sub h], cs as [|o c0];
    cbn [wf_step] in Hstep; try discriminate.
  - (* simple field *)
    destruct (container_width_ok w) eqn:Hw; [|discriminate].
    injection Hstep as <-. apply container_width_ok_spec in Hw.
    exists w, w. unfold step_facts, cs_next. cbn [field_lengths cs_offset].
    rewrite Z.add_0_l, Z.eqb_refl.
    split_ands; try lia; try reflexivity; try exact I. discriminate.
  - (* packed field opening a container *)
    destruct (_ && _) eqn:Hc in Hstep; [|discriminate].
    injection Hstep as <-. break_andb.
    match goal with H : container_width_ok _ = true |- _ =>
      apply container_width_ok_spec in H end.
    exists c, w. unfold step_facts, cs_next. cbn [field_lengths cs_offset].
    rewrite Z.add_0_l.
    split_ands; try lia; try reflexivity; try discriminate.
    destruct (Z.eqb_spec w c); cbn [cs_ok]; [exact I | lia].
  - (* packed field in an open container *)
    destruct (_ && _) eqn:Hc in Hstep; [|discriminate].
    injection Hstep as <-. break_andb. cbn [cs_ok] in Hok.
    match goal with H : container_width_ok _ = true |- _ =>
      apply container_width_ok_spec in H end.
    assert (c = c0) by lia. subst c0.
    exists c, w. unfold step_facts, cs_next. cbn [field_lengths cs_offset].
    split_ands; try lia; try reflexivity.
    + intros o' c' [= _ <-]. reflexivity.
    + destruct (Z.eqb_spec (o + w) c); cbn [cs_ok]; [exact I | lia].
  - (* array *)
    destruct (_ && _) eqn:Hc in Hstep; [|discriminate].
    injection Hstep as <-. break_andb.
    exists b, b. unfold step_facts, cs_next. cbn [field_lengths cs_offset].
    rewrite Z.add_0_l, Z.eqb_refl.
    split_ands; try lia; try reflexivity; try exact I. discriminate.
  - (* string *)
    destruct (_ && _) eqn:Hc in Hstep; [|discriminate].
    injection Hstep as <-. break_andb.
    exists b, b. unfold step_facts, cs_next. cbn [field_lengths cs_offset].
    rewrite Z.add_0_l, Z.eqb_refl.
    split_ands; try lia; try reflexivity; try exact I. discriminate.
  - (* struct *)
    destruct (struct_ok (TypeStruct sub h)) eqn:Hs; [|discriminate].
    injection Hstep as <-. rewrite struct_ok_eq in Hs.
    destruct (Hsub sub h eq_refl Hs) as [n [Hn [Hpos Hmod]]].
    exists n, n. unfold step_facts, cs_next. cbn [field_lengths cs_offset].
    rewrite struct_length_eq, Hn. cbn [bind].
    rewrite Z.add_0_l, Z.eqb_refl.
    split_ands; try lia; try reflexivity; try exact I. discriminate.
Qed.

(** One iteration of [check_struct] on a field that fits the layout. *)
Lemma check_field_step (cs : container_state) (d : descr) (cw pw : Z)
    (st : check_state) (name : string) :
  step_facts cs d cw pw ->
  check_agrees cs st ->
  exists st',
    check_field struct_length st name d = OK st'
    /\ check_agrees (cs_next cs cw pw) st'
    /\ total_length_sum_bits st' + cs_pending (cs_next cs cw pw)
       = total_length_sum_bits st + cs_pending cs
         + match cs with Closed => cw | Open _ _ => 0 end
    /\ (total_length_sum_bits st' = total_length_sum_bits st
        \/ total_length_sum_bits st' = total_length_sum_bits st + cw).
Proof.
  intros (Hlen & Hpw & Hfit & Hcw & Hmod & Hopen & Hkind) [Hoff Hprev].
  unfold check_field.
  assert (Hlens :
    match d with
    | Simple w =>
        if chk_packed_field_offset st =? 0 then OK (w, w)
        else Err (PreviousFieldsDoNotMatch name)
    | Packed w container_info _ => OK (w, container_info)
    | TypeArray bits _ | TypeString bits _ => OK (bits, bits)
    | TypeStruct _ _ =>
        field_length <- struct_length d ;; OK (field_length, field_length)
    end = OK (pw, cw)).
  { destruct d as [w|w c h|b h|b h|sub h]; cbn [field_lengths] in Hlen.
    - destruct Hkind as (-> & _ & _). cbn [cs_offset] in Hoff.
      rewrite Hoff. cbn. congruence.
    - congruence.
    - congruence.
    - congruence.
    - destruct (struct_length (TypeStruct sub h)); cbn [bind] in *; congruence. }
  rewrite Hlens. cbn [bind].
  apply Z.eqb_eq in Hmod. rewrite Hmod. cbn [negb].
  rewrite Hoff. unfold cs_next.
  destruct (Z.gtb_spec (cs_offset cs + pw) cw) as [Hgt|_]; [lia|].
  destruct (Z.ltb_spec (cs_offset cs + pw) cw) as [Hlt|Hge].
  - destruct (Z.eqb_spec (cs_offset cs + pw) cw) as [Heq|_]; [lia|].
    assert (Hali : negb (cs_offset cs =? 0)
                   && negb (prev_container_length st =? cw) = false).
    { destruct cs as [|o c]; cbn [cs_offset].
      - reflexivity.
      - rewrite (Hprev o c eq_refl), (Hopen o c eq_refl), Z.eqb_refl.
        apply andb_false_r. }
    rewrite Hali. eexists. split; [reflexivity|].
    unfold check_agrees. cbn.
    split_ands; [reflexivity | intros o c [= _ <-]; reflexivity | | now left].
    destruct cs as [|o c]; cbn; [lia|]. pose proof (Hopen o c eq_refl). lia.
  - destruct (Z.eqb_spec (cs_offset cs + pw) cw) as [Heq|Hne]; [|lia].
    eexists. split; [reflexivity|].
    unfold check_agrees. cbn.
    split_ands; [reflexivity | discriminate | | right; lia].
    destruct cs as [|o c]; cbn in *; [lia|]. pose proof (Hopen o c eq_refl). lia.
Qed.

Lemma wf_run_cons (fields : schema) (name : string) (d : descr)
    (cs csF : container_state) :
  wf_run struct_ok ((name, d) :: fields) cs = Some csF ->
  exists cs', wf_step struct_ok cs d = Some cs'
              /\ wf_run struct_ok fields cs' = Some csF.
Proof.
  cbn [wf_run]. destruct (wf_step struct_ok cs d) as [cs'|];
    [eauto | discriminate].
Qed.

(** The validator follows the layout of a well-formed run of fields:
    it succeeds, and the bits it has counted plus those of the open
    container grow by whole bytes. *)
Lemma check_loop_wf (fields : schema) :
  Forall (fun p => nested_lengths_ok (snd p)) fields ->
  forall cs csF st,
    wf_run struct_ok fields cs = Some csF ->
    cs_ok cs ->
    check_agrees cs st ->
    exists stF,
      check_loop struct_length fields st = OK stF
      /\ check_agrees csF stF
      /\ cs_ok csF
      /\ total_length_sum_bits st + cs_pending cs
         <= total_length_sum_bits stF + cs_pending csF
      /\ total_length_sum_bits st <= total_length_sum_bits stF
      /\ (total_length_sum_bits st mod 8 = 0 ->
          total_length_sum_bits stF mod 8 = 0).
Proof.
  induction 1 as [|[name d] rest Hd _ IH]; intros cs csF st Hrun Hok Hagr.
  - cbn in Hrun. injection Hrun as <-. exists st. cbn [check_loop].
    split_ands; auto; lia.
  - apply wf_run_cons in Hrun. destruct Hrun as [cs1 [Hstep Hrun]].
    cbn [snd] in Hd.
    destruct (wf_step_facts cs cs1 d Hd Hstep Hok)
      as (cw & pw & Hfacts & -> & Hok1).
    destruct (check_field_step cs d cw pw st name Hfacts Hagr)
      as (st1 & Hchk & Hagr1 & Hsum & Htot).
    destruct (IH _ _ st1 Hrun Hok1 Hagr1)
      as (stF & HchkF & HagrF & HokF & HsumF & HtotF & HmodF).
    exists stF. cbn [check_loop]. rewrite Hchk. cbn [bind].
    destruct Hfacts as (_ & _ & _ & Hcw & Hmod & _).
    split_ands; auto.
    + destruct cs; lia.
    + lia.
    + intros Hm. apply HmodF.
      destruct Htot as [-> | ->]; [exact Hm|].
      rewrite Z.add_mod, Hm, Hmod by lia. reflexivity.
Qed.

Lemma check_struct_wf (fields : schema) :
  well_formed fields = true ->
  exists n, check_struct fields = OK n /\ 0 <= n /\ n mod 8 = 0.
Proof.
  induction fields using schema_nested_ind. intros Hwf.
  unfold well_formed, wf_closed in Hwf.
  destruct (wf_run struct_ok fields Closed) as [[|o c]|] eqn:Hrun;
    try discriminate.
  destruct (check_loop_wf fields) with (cs := Closed) (csF := Closed)
    (st := mkCheck 0 0 0) as (stF & Hchk & _ & _ & _ & Hle & Hmod).
  - eapply Forall_impl; [|exact H].
    intros [name d] IH sub h Hd Hsub. exact (IH sub h Hd Hsub).
  - exact Hrun.
  - exact I.
  - split; [reflexivity | discriminate].
  - exists (total_length_sum_bits stF). unfold check_struct. rewrite Hchk.
    cbn in *. split_ands; auto.
Qed.

Lemma nested_lengths_ok_all (fields : schema) :
  Forall (fun p => nested_lengths_ok (snd p)) fields.
Proof.
  apply Forall_forall. intros [name d] _ sub h _ Hwf.
  exact (check_struct_wf sub Hwf).
Qed.

(** ** Hex text *)

Lemma is_hex_string_app (s t : str) :
  Tools.is_hex_string (s ++ t)
  = Tools.is_hex_string s && Tools.is_hex_string t.
Proof. apply forallb_app. Qed.

Lemma is_hex_string_slice (s : str) (a b : Z) :
  Tools.is_hex_string s = true -> Tools.is_hex_string (py_slice s a b) = true.
Proof.
  intros Hs. unfold py_slice. cbv zeta.
  generalize (Z.to_nat (slice_bound (len s) b - slice_bound (len s) a)).
  generalize (Z.to_nat (slice_bound (len s) a)).
  intros lo n.
  rewrite <- (firstn_skipn lo s), is_hex_string_app in Hs.
  apply andb_prop in Hs. destruct Hs as [_ Hs].
  rewrite <- (firstn_skipn n (skipn lo s)), is_hex_string_app in Hs.
  apply andb_prop in Hs. exact (proj1 Hs).
Qed.

Lemma hex_value_some (s : str) (acc : Z) :
  Tools.is_hex_string s = true -> exists n, Tools.hex_value acc s = Some n.
Proof.
  revert acc. induction s as [|c s IH]; intros acc Hs; cbn [Tools.hex_value].
  - eauto.
  - cbn [Tools.is_hex_string forallb] in Hs. apply andb_prop in Hs.
    destruct Hs as [Hc Hs]. unfold Tools.is_hex_digit in Hc.
    destruct (Tools.hex_digit c); [|discriminate]. exact (IH _ Hs).
Qed.

Lemma int16_succeeds (s : str) :
  Tools.is_hex_string s = true -> s <> [] -> succeeds (Tools.int16 s).
Proof.
  intros Hs Hne. unfold Tools.int16, succeeds.
  destruct (hex_value_some s 0 Hs) as [n Hn].
  destruct s; [congruence|]. rewrite Hn. eauto.
Qed.

Lemma extract_value_succeeds (s : str) (start_bit length_bits : Z) :
  Tools.is_hex_string s = true -> s <> [] ->
  0 <= start_bit -> 0 <= length_bits ->
  succeeds (Tools.extract_value_from_hex s start_bit length_bits).
Proof.
  intros Hs Hne Hstart Hlen. unfold Tools.extract_value_from_hex.
  destruct (int16_succeeds s Hs Hne) as [n ->]. cbn [bind].
  destruct (Z.ltb_spec start_bit 0); [lia|].
  destruct (Z.ltb_spec length_bits 0); [lia|].
  red. eauto.
Qed.

Lemma get_byte_from_hex_shift (a b : ascii) (t : str) (k : nat) :
  (2 * k + 2 <= List.length t)%nat ->
  Tools.get_byte_from_hex (Z.of_nat (S k)) (a :: b :: t)
  = Tools.get_byte_from_hex (Z.of_nat k) t.
Proof.
  intros Hk. unfold Tools.get_byte_from_hex. f_equal.
  replace (2 * Z.of_nat (S k)) with (2 * Z.of_nat k + 2) by lia.
  replace (2 * (Z.of_nat (S k) + 1)) with (2 * (Z.of_nat k + 1) + 2) by lia.
  apply py_slice_skip2; unfold len; lia.
Qed.

Lemma char_string_loop_succeeds (s : str) :
  Nat.even (List.length s) = true ->
  Tools.is_hex_string s = true ->
  forall acc,
    succeeds
      (fold_left
         (fun acc byte_n =>
            string <- acc ;;
            b <- Tools.get_byte_from_hex byte_n s ;;
            OK (string ++ [Tools.chr b]))
         (map Z.of_nat (seq 0 (Nat.div2 (List.length s))))
         (OK acc)).
Proof.
  revert s. apply (str_pair_ind (fun s => Tools.is_hex_string s = true ->
    forall acc, succeeds (fold_left _ (map Z.of_nat (seq 0 (Nat.div2 (List.length s)))) (OK acc)))).
  - intros _ acc. cbn. red. eauto.
  - intros a b t Hev IH Hhex acc.
    cbn [List.length Nat.div2]. rewrite <- cons_seq, <- seq_shift.
    cbn [map fold_left bind]. rewrite map_map.
    assert (H0 : Tools.get_byte_from_hex (Z.of_nat 0) (a :: b :: t)
                 = Tools.int16 [a; b]).
    { unfold Tools.get_byte_from_hex. f_equal. apply py_slice_head2. }
    rewrite H0.
    cbn [Tools.is_hex_string forallb] in Hhex.
    apply andb_prop in Hhex. destruct Hhex as [Ha Hhex].
    apply andb_prop in Hhex. destruct Hhex as [Hb Hhex].
    destruct (int16_succeeds [a; b]) as [v Hv].
    { cbn [Tools.is_hex_string forallb]. now rewrite Ha, Hb. }
    { discriminate. }
    rewrite Hv. cbn [bind].
    destruct (IH Hhex (acc ++ [Tools.chr v])) as [r Hr].
    exists r. rewrite <- Hr.
    generalize (OK (acc ++ [Tools.chr v])).
    destruct (even_length_half t Hev) as [n Hn].
    assert (Hdiv : Nat.div2 (List.length t) = n).
    { rewrite Hn. apply Nat.div2_double. }
    rewrite Hdiv.
    assert (Hall : forall k, In k (seq 0 n) -> (2 * k + 2 <= List.length t)%nat).
    { intros k Hk. apply in_seq in Hk. lia. }
    clear - Hall. induction (seq 0 n) as [|k l IHl]; intros r0.
    + reflexivity.
    + cbn [map fold_left]. rewrite get_byte_from_hex_shift.
      * apply IHl. intros j Hj. apply Hall. now right.
      * apply Hall. now left.
Qed.

Lemma hex_string_to_char_string_succeeds (s : str) :
  len s mod 2 = 0 ->
  Tools.is_hex_string s = true ->
  succeeds (Tools.hex_string_to_char_string s).
Proof.
  intros Hev Hhex. apply len_even_iff in Hev.
  unfold Tools.hex_string_to_char_string.
  destruct (even_length_half s Hev) as [n Hn].
  replace (Z.quot (len s) 2) with (Z.of_nat (Nat.div2 (List.length s))).
  - rewrite py_range0_step1. apply char_string_loop_succeeds; assumption.
  - unfold len. rewrite Hn, Nat.div2_double, Nat2Z.inj_mul.
    change (Z.of_nat 2) with 2. rewrite Z.mul_comm, Z.quot_mul; lia.
Qed.

(** ** OrderedDict lemmas *)

Lemma od_get_set_same {A} (k : string) (v : A) (d : list (string * A)) :
  od_get k (od_set k v d) = Some v.
Proof.
  induction d as [|[k' v'] d IH]; cbn [od_set od_get].
  - now rewrite String.eqb_refl.
  - destruct (String.eqb k k') eqn:Hk; cbn [od_get].
    + now rewrite String.eqb_refl.
    + now rewrite Hk.
Qed.

Lemma od_get_set_other {A} (k k' : string) (v : A) (d : list (string * A)) :
  k <> k' -> od_get k (od_set k' v d) = od_get k d.
Proof.
  intros Hne. induction d as [|[k0 v0] d IH]; cbn [od_set od_get].
  - destruct (String.eqb_spec k k'); [contradiction | reflexivity].
  - destruct (String.eqb_spec k' k0) as [->|Hk0]; cbn [od_get].
    + destruct (String.eqb_spec k k0); [contradiction | reflexivity].
    + now rewrite IH.
Qed.

(** ** One iteration of the decoding loop *)

Lemma parse_field_unfold (rec : descr -> str -> result odict) (hex : str)
    (st : parse_state) (name : string) (d : descr) (cw pw : Z) :
  field_lengths d = OK (cw, pw) ->
  parse_field rec hex st name d
  = (st2 <- extract_field rec (extract_container hex st cw) name d pw ;;
     st3 <- run_handler st2 name d ;;
     OK (mkParse (fields_parsed st3) (container_fields_offset st3)
                 (packed_field_offset st3 + pw)
                 (packed_field_offset st3 + pw =? cw)
                 (container_value st3))).
Proof. intros H. unfold parse_field. rewrite H. reflexivity. Qed.

Lemma extract_field_cursors (rec : descr -> str -> result odict)
    (st st' : parse_state) (name : string) (d : descr) (pw : Z) :
  extract_field rec st name d pw = OK st' -> same_cursors st st'.
Proof.
  unfold extract_field, same_cursors. intros H.
  destruct d; try (apply bind_OK in H; destruct H as [x [_ H]]);
    injection H as <-; cbn; auto.
Qed.

Lemma run_handler_cursors (st st' : parse_state) (name : string) (d : descr) :
  run_handler st name d = OK st' ->
  same_cursors st st' /\ container_value st' = container_value st.
Proof.
  unfold run_handler, same_cursors. intros H.
  destruct (handler_of d) as [h|].
  - destruct (od_get name (fields_parsed st)) as [v|]; [|discriminate].
    apply bind_OK in H. destruct H as [v' [_ H]].
    injection H as <-. cbn. auto.
  - injection H as <-. auto.
Qed.

Lemma parse_field_cursors (rec : descr -> str -> result odict) (hex : str)
    (st st' : parse_state) (name : string) (d : descr) (cw pw : Z) :
  field_lengths d = OK (cw, pw) ->
  parse_field rec hex st name d = OK st' ->
  container_fields_offset st'
  = (if first_packed_field st then container_fields_offset st + cw
     else container_fields_offset st)
  /\ packed_field_offset st'
     = (if first_packed_field st then 0 else packed_field_offset st) + pw
  /\ first_packed_field st' = (packed_field_offset st' =? cw).
Proof.
  intros Hlen H. rewrite (parse_field_unfold _ _ _ _ _ _ _ Hlen) in H.
  apply bind_OK in H. destruct H as [st2 [H2 H]].
  apply bind_OK in H. destruct H as [st3 [H3 H]].
  injection H as <-. cbn.
  apply extract_field_cursors in H2. destruct H2 as (Ha & Hb & Hc).
  apply run_handler_cursors in H3. destruct H3 as [(Hd & He & Hf) _].
  rewrite Hd, He, Ha, Hb. unfold extract_container.
  destruct (first_packed_field st); cbn; auto.
Qed.

(** The decoder's cursors follow the layout. *)
Lemma parse_field_agrees (rec : descr -> str -> result odict) (hex : str)
    (cs : container_state) (d : descr) (cw pw total total' : Z)
    (st st' : parse_state) (name : string) :
  step_facts cs d cw pw ->
  parse_agrees cs total st ->
  parse_field rec hex st name d = OK st' ->
  total' + cs_pending (cs_next cs cw pw)
  = total + cs_pending cs + match cs with Closed => cw | Open _ _ => 0 end ->
  parse_agrees (cs_next cs cw pw) total' st'.
Proof.
  intros (Hlen & _ & _ & _ & _ & Hopen & _) [Hcfo Hcs] Hstep Hsum.
  destruct (parse_field_cursors _ _ _ _ _ _ _ _ Hlen Hstep)
    as (Hc & Hp & Hf).
  unfold parse_agrees. rewrite Hsum.
  assert (Hoff : packed_field_offset st' = cs_offset cs + pw).
  { rewrite Hp. destruct cs as [|o c]; cbn [cs_offset].
    - now rewrite Hcs.
    - destruct Hcs as [-> ->]. reflexivity. }
  split.
  - rewrite Hc, Hcfo. destruct cs as [|o c]; cbn [cs_pending].
    + rewrite Hcs. lia.
    + destruct Hcs as [-> _]. lia.
  - rewrite Hf, Hoff. unfold cs_next.
    destruct (Z.eqb_spec (cs_offset cs + pw) cw); auto.
Qed.

Lemma container_slice (hex : str) (t cw : Z) :
  0 <= t -> t mod 8 = 0 -> 0 <= cw -> cw mod 8 = 0 ->
  t + cw <= 4 * len hex ->
  Z.quot t 4 = t / 4
  /\ Z.quot (4 * Z.quot t 4 + cw) 4 = t / 4 + cw / 4
  /\ 4 * len (py_slice hex (t / 4) (t / 4 + cw / 4)) = cw.
Proof.
  intros Ht Htm Hcw Hcm Hle.
  assert (H1 : Z.quot t 4 = t / 4) by (apply Z.quot_div_nonneg; lia).
  assert (Ht4 : t = 4 * (t / 4)) by (Z.div_mod_to_equations; lia).
  assert (Hc4 : cw = 4 * (cw / 4)) by (Z.div_mod_to_equations; lia).
  split_ands.
  - exact H1.
  - rewrite H1, Z.quot_div_nonneg by lia.
    rewrite <- Ht4. rewrite Ht4 at 1. rewrite Hc4 at 1.
    rewrite <- Z.mul_add_distr_l, Z.mul_comm, Z.div_mul by lia. reflexivity.
  - rewrite py_slice_length; lia.
Qed.

Lemma run_handler_succeeds (st : parse_state) (name : string) (d : descr)
    (v : value) :
  handlers_accept_descr d ->
  od_get name (fields_parsed st) = Some v ->
  decoded_value_of d v ->
  succeeds (run_handler st name d).
Proof.
  intros Ht Hv Hraw. unfold run_handler, succeeds.
  destruct (handler_of d) as [h|] eqn:Hh; [|eauto].
  rewrite Hv. destruct (handlers_accept_handler d h v Ht Hh Hraw) as [v' ->].
  cbn [bind]. eauto.
Qed.

Lemma extract_value_bounds (s : str) (start_bit length_bits v : Z) :
  Tools.extract_value_from_hex s start_bit length_bits = OK v ->
  0 <= v < 2 ^ length_bits.
Proof.
  unfold Tools.extract_value_from_hex. intros H.
  apply bind_OK in H. destruct H as [n [_ H]].
  destruct (start_bit <? 0); [discriminate|].
  destruct (Z.ltb_spec length_bits 0); [discriminate|].
  injection H as <-.
  replace (2 ^ length_bits - 1) with (Z.ones length_bits)
    by (rewrite Z.ones_equiv; lia).
  rewrite Z.land_ones by lia.
  apply Z.mod_pos_bound. apply Z.pow_pos_nonneg; lia.
Qed.

Lemma numeric_container_text (st : parse_state) (cw pw : Z) :
  Tools.is_hex_string (container_value st) = true ->
  (first_packed_field st = true -> 4 * len (container_value st) = cw) ->
  (first_packed_field st = false -> container_value st <> []) ->
  0 < cw -> cw mod 8 = 0 ->
  0 <= packed_field_offset st -> 0 <= pw ->
  let cv := if first_packed_field st
            then Tools.convert_endianess (container_value st)
            else container_value st in
  Tools.is_hex_string cv = true /\ cv <> []
  /\ succeeds (Tools.extract_value_from_hex cv (packed_field_offset st) pw).
Proof.
  intros Hhex Hfirst Hopen Hcw Hmod Hoff Hpw cv.
  assert (Hcv : Tools.is_hex_string cv = true /\ cv <> []).
  { subst cv. destruct (first_packed_field st) eqn:Hf; [|auto].
    specialize (Hfirst eq_refl).
    assert (Hev : Nat.even (List.length (container_value st)) = true).
    { apply len_even_iff. Z.div_mod_to_equations. lia. }
    split; [apply convert_endianess_hex; assumption|].
    intros Hnil. apply (f_equal (@List.length ascii)) in Hnil.
    rewrite convert_endianess_length in Hnil by exact Hev.
    unfold len in Hfirst. cbn [List.length] in Hnil. lia. }
  destruct Hcv as [Hcv1 Hcv2]. split_ands; auto.
  apply extract_value_succeeds; assumption.
Qed.

(** The extraction succeeds on a container text of the right size, and
    stores a value of the kind and size of the field. *)
Lemma extract_field_succeeds (st : parse_state) (name : string) (d : descr)
    (cw pw : Z) :
  field_lengths d = OK (cw, pw) ->
  Tools.is_hex_string (container_value st) = true ->
  (first_packed_field st = true -> 4 * len (container_value st) = cw) ->
  (first_packed_field st = false -> container_value st <> []) ->
  0 <= cw -> cw mod 8 = 0 -> (is_numeric d = true -> 0 < cw) ->
  (is_numeric d = false -> first_packed_field st = true) ->
  0 <= packed_field_offset st -> 0 <= pw ->
  (forall sub h, d = TypeStruct sub h ->
     succeeds (parse_struct_from_hex sub (container_value st))) ->
  exists st' v,
    extract_field parse_nested st name d pw = OK st'
    /\ od_get name (fields_parsed st') = Some v
    /\ decoded_value_of d v
    /\ (is_numeric d = true ->
        Tools.is_hex_string (container_value st') = true
        /\ container_value st' <> []).
Proof.
  intros Hlens Hhex Hfirst Hopen Hcw Hmod Hnum Hnon Hoff Hpw Hsub.
  unfold extract_field.
  destruct d as [w|w c h|b h|b h|sub h];
    cbn [is_numeric field_lengths] in *.
  - injection Hlens as <- <-.
    destruct (numeric_container_text st w w) as (H1 & H2 & [v Hv]); auto.
    rewrite Hv. cbn [bind]. do 2 eexists.
    split_ands; [reflexivity | cbn; apply od_get_set_same | | auto].
    exact (extract_value_bounds _ _ _ _ Hv).
  - injection Hlens as <- <-.
    destruct (numeric_container_text st c w) as (H1 & H2 & [v Hv]); auto.
    rewrite Hv. cbn [bind]. do 2 eexists.
    split_ands; [reflexivity | cbn; apply od_get_set_same | | auto].
    exact (extract_value_bounds _ _ _ _ Hv).
  - injection Hlens as <- <-. specialize (Hfirst (Hnon eq_refl)).
    do 2 eexists.
    split_ands; [reflexivity | cbn; apply od_get_set_same | | discriminate].
    split; assumption.
  - injection Hlens as <- <-. specialize (Hfirst (Hnon eq_refl)).
    destruct (hex_string_to_char_string_succeeds (container_value st))
      as [s Hs]; [Z.div_mod_to_equations; lia | exact Hhex |].
    rewrite Hs. cbn [bind]. do 2 eexists.
    split_ands; [reflexivity | cbn; apply od_get_set_same | | discriminate].
    exists (container_value st). split_ands; assumption.
  - rewrite parse_nested_eq. destruct (Hsub sub h eq_refl) as [r Hr].
    rewrite Hr. cbn [bind]. do 2 eexists.
    split_ands; [reflexivity | cbn; apply od_get_set_same | | discriminate].
    exists (container_value st). split; assumption.
Qed.

(** One iteration of the decoding loop succeeds on a field that fits the
    layout, when the payload is long enough for its container. *)
Lemma parse_field_succeeds (hex : str) (cs : container_state) (d : descr)
    (cw pw total : Z) (st : parse_state) (name : string) :
  Tools.is_hex_string hex = true ->
  step_facts cs d cw pw -> cs_ok cs ->
  parse_agrees cs total st -> container_text_ok cs st ->
  0 <= total -> total mod 8 = 0 ->
  total + cs_pending cs + match cs with Closed => cw | Open _ _ => 0 end
  <= 4 * len hex ->
  handlers_accept_descr d ->
  (forall sub h hex', d = TypeStruct sub h ->
     Tools.is_hex_string hex' = true -> 4 * len hex' = cw ->
     succeeds (parse_struct_from_hex sub hex')) ->
  exists st',
    parse_field parse_nested hex st name d = OK st'
    /\ container_text_ok (cs_next cs cw pw) st'.
Proof.
  intros Hhex Hfacts Hok [Hcfo Hcs] Htext Htot Htotm Hfit Hh Hsub.
  pose proof Hfacts as (Hlen & Hpw & Hroom & Hcw & Hmod & Hopen & Hkind).
  rewrite (parse_field_unfold _ _ _ _ _ _ _ Hlen).
  set (st1 := extract_container hex st cw).
  assert (H1 : Tools.is_hex_string (container_value st1) = true
               /\ (first_packed_field st1 = true ->
                   4 * len (container_value st1) = cw)
               /\ (first_packed_field st1 = false ->
                   container_value st1 <> [])
               /\ packed_field_offset st1 = cs_offset cs
               /\ first_packed_field st1 = first_packed_field st).
  { subst st1. unfold extract_container.
    destruct cs as [|o c]; cbn [cs_offset cs_pending] in *.
    - rewrite Hcs, Hcfo, Z.add_0_r.
      cbn [container_value first_packed_field packed_field_offset].
      destruct (container_slice hex total cw) as (Hq1 & Hq2 & Hq3);
        try assumption; try lia.
      rewrite Hq2, Hq1.
      split_ands; auto; try discriminate.
      now apply is_hex_string_slice.
    - destruct Hcs as [Hf Hp]. rewrite Hf. destruct Htext as [Ht1 Ht2].
      split_ands; auto. congruence. }
  destruct H1 as (Hhex1 & Hsize1 & Hne1 & Hoff1 & Hfirst1).
  assert (Hnon : is_numeric d = false -> cs = Closed).
  { destruct d; cbn [is_numeric]; try discriminate; intros _; apply Hkind. }
  assert (Hnum : is_numeric d = true -> 0 < cw).
  { destruct d; cbn [is_numeric]; try discriminate; intros _; apply Hkind. }
  destruct (extract_field_succeeds st1 name d cw pw Hlen)
    as (st2 & v & Hst2 & Hv & Hraw & Htext2); auto.
  - intros Hn. rewrite Hfirst1. rewrite (Hnon Hn) in Hcs. exact Hcs.
  - rewrite Hoff1. destruct cs as [|o c]; cbn [cs_offset cs_ok] in *; lia.
  - intros sub h Hd. apply (Hsub sub h _ Hd Hhex1).
    apply Hsize1. rewrite Hfirst1.
    assert (Hc : cs = Closed) by (apply Hnon; subst d; reflexivity).
    rewrite Hc in Hcs. exact Hcs.
  - rewrite Hst2. cbn [bind].
    destruct (run_handler_succeeds st2 name d v Hh Hv Hraw) as [st3 Hst3].
    rewrite Hst3. cbn [bind]. eexists. split; [reflexivity|].
    apply run_handler_cursors in Hst3. destruct Hst3 as [_ Hcv3].
    unfold container_text_ok, cs_next.
    destruct (Z.eqb_spec (cs_offset cs + pw) cw) as [|Hne]; [exact I|].
    cbn [container_value]. rewrite Hcv3. apply Htext2.
    destruct d; cbn [is_numeric]; try reflexivity;
      destruct Hkind as [-> ->]; cbn [cs_offset] in Hne; lia.
Qed.

Lemma check_loop_cons (f : descr -> result Z) (name : string) (d : descr)
    (rest : schema) (st stF : check_state) :
  check_loop f ((name, d) :: rest) st = OK stF ->
  exists st', check_field f st name d = OK st'
              /\ check_loop f rest st' = OK stF.
Proof. cbn [check_loop]. apply bind_OK. Qed.

(** The decoding loop succeeds on a well-formed run of fields when the
    validated length of the schema is the length of the payload. *)
Lemma parse_loop_succeeds (hex : str) (fields : schema) :
  Tools.is_hex_string hex = true ->
  Forall (fun p => nested_decodes (snd p)) fields ->
  handlers_accept fields ->
  forall cs st stF pst,
    wf_run struct_ok fields cs = Some Closed ->
    cs_ok cs ->
    check_agrees cs st ->
    parse_agrees cs (total_length_sum_bits st) pst ->
    container_text_ok cs pst ->
    0 <= total_length_sum_bits st ->
    total_length_sum_bits st mod 8 = 0 ->
    check_loop struct_length fields st = OK stF ->
    total_length_sum_bits stF = 4 * len hex ->
    succeeds (parse_loop parse_nested hex fields pst).
Proof.
  intros Hhex Hnested. induction Hnested as [|[name d] rest Hd _ IH];
    intros Hh cs st stF pst Hrun Hok Hagr Hpagr Htext Htot Htotm Hchk HF.
  - cbn [parse_loop]. red. eauto.
  - apply wf_run_cons in Hrun. destruct Hrun as [cs1 [Hstep Hrun]].
    cbn [snd] in Hd. inversion Hh as [|? ? Hhd Hhrest]; subst.
    cbn [snd] in Hhd.
    destruct (wf_step_facts cs cs1 d) as (cw & pw & Hfacts & -> & Hok1);
      [intros sub h _ Hwf; exact (check_struct_wf sub Hwf) | exact Hstep
       | exact Hok |].
    destruct (check_field_step cs d cw pw st name Hfacts Hagr)
      as (st1 & Hchk1 & Hagr1 & Hsum & Htot1).
    apply check_loop_cons in Hchk. destruct Hchk as (st1' & Hchk1' & HchkF).
    assert (st1' = st1) by congruence. subst st1'.
    destruct (check_loop_wf rest (nested_lengths_ok_all rest)
                _ _ st1 Hrun Hok1 Hagr1)
      as (stF' & HchkF' & _ & _ & Hbound & _ & _).
    assert (stF' = stF) by congruence. subst stF'.
    cbn [cs_pending] in Hbound.
    pose proof Hfacts as (Hlen & Hpw & Hroom & Hcw & Hmod & Hopen & Hkind).
    destruct (parse_field_succeeds hex cs d cw pw (total_length_sum_bits st)
                pst name) as (pst1 & Hpst1 & Htext1); auto.
    + lia.
    + intros sub h hex' -> Hhex' Hlen'.
      assert (Hwf : well_formed sub = true).
      { destruct cs; cbn [wf_step] in Hstep; [|discriminate].
        rewrite <- struct_ok_eq with (h := h).
        destruct (struct_ok (TypeStruct sub h)); [reflexivity|discriminate]. }
      apply (Hd sub h eq_refl Hwf (handlers_accept_struct _ _ Hhd) hex' cw Hhex');
        [|exact Hlen'].
      cbn [field_lengths] in Hlen. rewrite struct_length_eq in Hlen.
      destruct (check_struct sub); cbn [bind] in Hlen; congruence.
    + cbn [parse_loop]. rewrite Hpst1. cbn [bind].
      apply (IH Hhrest _ st1 stF pst1 Hrun Hok1 Hagr1); auto.
      * eapply parse_field_agrees; eauto.
      * destruct Htot1 as [-> | ->]; lia.
      * destruct Htot1 as [-> | ->]; [exact Htotm|].
        rewrite Z.add_mod, Htotm, Hmod by lia. reflexivity.
Qed.

Lemma check_struct_total (fields : schema) (n : Z) :
  check_struct fields = OK n ->
  exists stF, check_loop struct_length fields (mkCheck 0 0 0) = OK stF
              /\ total_length_sum_bits stF = n.
Proof.
  unfold check_struct. intros H. apply bind_OK in H.
  destruct H as [stF [H1 H2]]. injection H2 as <-. eauto.
Qed.

Lemma well_formed_run (fields : schema) :
  well_formed fields = true -> wf_run struct_ok fields Closed = Some Closed.
Proof.
  unfold well_formed, wf_closed.
  destruct (wf_run struct_ok fields Closed) as [[|o c]|]; try discriminate.
  reflexivity.
Qed.

(** Decoding succeeds on a well-formed schema and a hex payload of the
    validated length. *)
Lemma decode_succeeds_on_matching_length (fields : schema) :
  well_formed fields = true -> handlers_accept fields ->
  forall hex n, Tools.is_hex_string hex = true ->
    check_struct fields = OK n -> 4 * len hex = n ->
    succeeds (parse_struct_from_hex fields hex).
Proof.
  induction fields using schema_nested_ind.
  intros Hwf Hh hex n Hhex Hchk Hlen.
  destruct (check_struct_wf fields Hwf) as (n' & Hn' & Hpos & Hmod).
  assert (n' = n) by congruence. subst n'.
  destruct (check_struct_total fields n Hchk) as (stF & HstF & HtotF).
  assert (Hnested : Forall (fun p => nested_decodes (snd p)) fields).
  { eapply Forall_impl; [|exact H].
    intros [name d] IH sub h Hd. exact (IH sub h Hd). }
  assert (Hloop : succeeds (parse_loop parse_nested hex fields parse_init)).
  { apply (parse_loop_succeeds hex fields Hhex Hnested Hh
             Closed (mkCheck 0 0 0) stF parse_init).
    - now apply well_formed_run.
    - exact I.
    - split; [reflexivity | discriminate].
    - split; reflexivity.
    - exact I.
    - cbn. lia.
    - reflexivity.
    - exact HstF.
    - lia. }
  destruct Hloop as [pstF HpstF].
  unfold parse_struct_from_hex, parse_body, check_input.
  assert (Hev : (len hex mod 2 =? 0) = true).
  { apply Z.eqb_eq. Z.div_mod_to_equations. lia. }
  rewrite Hev, Hchk. cbn [negb bind].
  assert (Heq : (n =? len hex * 4) = true) by (apply Z.eqb_eq; lia).
  rewrite Heq. cbn [negb bind]. rewrite HpstF. cbn [bind]. red. eauto.
Qed.

(** C1, as stated, fails: the schema with the single field
    Packed(8, 8, lambda x: x + "V") is well formed and the hex string
    "00" has even length and the validated length of the schema, yet
    the decoder raises the TypeError of the handler. *)
Lemma raising_handler_fails_on_matching_length :
  well_formed [("a", Packed 8 TYPE_8_BITS (Some append_unit))] = true
  /\ Tools.is_hex_string (txt "00") = true
  /\ len (txt "00") mod 2 = 0
  /\ check_struct [("a", Packed 8 TYPE_8_BITS (Some append_unit))]
     = OK (4 * len (txt "00"))
  /\ parse_struct_from_hex
       [("a", Packed 8 TYPE_8_BITS (Some append_unit))] (txt "00")
     = Err TypeError
  /\ ~ succeeds
        (parse_struct_from_hex
           [("a", Packed 8 TYPE_8_BITS (Some append_unit))] (txt "00")).
Proof.
  split_ands; try (vm_compute; reflexivity).
  intros [r Hr]. vm_compute in Hr. discriminate.
Qed.

(** C1, amended. For a well-formed schema S and a text H,
    [check_struct(S)] returns a length [n], and:
    - if [parse_struct_from_hex(S, H)] succeeds then [len(H)] is even
      and [4*len(H) = n];
    - when [len(H)] is odd, or is even with [4*len(H) <> n], the call
      raises the corresponding assertion made before the loop, and an
      exception carries no partial result;
    - when H is a hex string, [len(H)] is even and [4*len(H) = n], the
      call succeeds provided no handler of S raises on a value decoded
      for its field. *)
Theorem parse_struct_from_hex_length_conditions (S : schema) (H : str) :
  well_formed S = true ->
  exists n,
    check_struct S = OK n
    /\ (succeeds (parse_struct_from_hex S H) ->
        len H mod 2 = 0 /\ 4 * len H = n)
    /\ (len H mod 2 <> 0 ->
        parse_struct_from_hex S H = Err HexLengthNotEven)
    /\ (len H mod 2 = 0 -> 4 * len H <> n ->
        parse_struct_from_hex S H = Err HexLengthMismatch)
    /\ (Tools.is_hex_string H = true -> handlers_accept S ->
        len H mod 2 = 0 -> 4 * len H = n ->
        succeeds (parse_struct_from_hex S H)).
Proof.
  intros Hwf.
  destruct (check_struct_wf S Hwf) as (n & Hn & Hpos & Hmod).
  exists n. split; [exact Hn|].
  assert (Hodd : len H mod 2 <> 0 ->
                 parse_struct_from_hex S H = Err HexLengthNotEven).
  { intros Hne. unfold parse_struct_from_hex, parse_body, check_input.
    destruct (Z.eqb_spec (len H mod 2) 0); [contradiction | reflexivity]. }
  assert (Hmis : len H mod 2 = 0 -> 4 * len H <> n ->
                 parse_struct_from_hex S H = Err HexLengthMismatch).
  { intros Hev Hne. unfold parse_struct_from_hex, parse_body, check_input.
    rewrite Hev, Hn. cbn [Z.eqb negb bind].
    destruct (Z.eqb_spec n (len H * 4)); [lia | reflexivity]. }
  split_ands; auto.
  - intros [r Hr].
    destruct (Z.eq_dec (len H mod 2) 0) as [Hev|Hne].
    + split; [exact Hev|].
      destruct (Z.eq_dec (4 * len H) n) as [Heq|Hneq]; [exact Heq|].
      rewrite (Hmis Hev Hneq) in Hr. discriminate.
    + rewrite (Hodd Hne) in Hr. discriminate.
  - intros Hhex Hh _ Heq.
    exact (decode_succeeds_on_matching_length S Hwf Hh H n Hhex Hn Heq).
Qed.

Lemma canonical_handlers_accept : handlers_accept Canonical.fields.
Proof.
  unfold handlers_accept, Canonical.fields, Canonical.sub_struct_format.
  repeat constructor; cbn [handler_of handlers_accept_descr snd];
    try (intros [n | s | d] Hv; try contradiction; red;
         unfold Canonical.one_or_not, Canonical.plus_one;
         repeat match goal with |- context [match ?x with _ => _ end] =>
                  destruct x end; eauto).
Qed.

(** A handler that is only defined on the values its field can take is
    accepted. *)
Example lookup_handler_accepted :
  handlers_accept [("a", Packed 5 TYPE_8_BITS (Some lookup_5_bits));
                   ("b", Packed 3 TYPE_8_BITS None)].
Proof.
  unfold handlers_accept. constructor; [|repeat constructor].
  cbn [handler_of handlers_accept_descr snd]. split; [|exact I].
  intros [n | s | d] Hv; cbn [decoded_value_of] in Hv; try contradiction.
  unfold lookup_5_bits. change (2 ^ 5) with 32 in Hv.
  destruct (Z.leb_spec 0 n); [|lia].
  destruct (Z.ltb_spec n 32); [|lia].
  red. cbn [andb]. eauto.
Qed.

Lemma parse_struct_from_hex_length_conditions_witness :
  check_struct Canonical.fields = OK 344
  /\ succeeds (parse_struct_from_hex Canonical.fields Canonical.hex_string).
Proof.
  destruct (parse_struct_from_hex_length_conditions
              Canonical.fields Canonical.hex_string)
    as (n & Hn & _ & _ & _ & Hok).
  - vm_compute. reflexivity.
  - assert (Hn344 : check_struct Canonical.fields = OK 344)
      by (vm_compute; reflexivity).
    split; [exact Hn344|].
    assert (n = 344) by congruence. subst n.
    apply Hok.
    + vm_compute. reflexivity.
    + exact canonical_handlers_accept.
    + reflexivity.
    + reflexivity.
Defined.

(** ** Runs of fields *)

Lemma wf_run_app (pre post : schema) (cs : container_state) :
  wf_run struct_ok (pre ++ post) cs
  = match wf_run struct_ok pre cs with
    | Some cs' => wf_run struct_ok post cs'
    | None => None
    end.
Proof.
  revert cs. induction pre as [|[name d] pre IH]; intros cs; cbn [app wf_run].
  - reflexivity.
  - destruct (wf_step struct_ok cs d); [apply IH | reflexivity].
Qed.

Lemma check_loop_app (f : descr -> result Z) (pre post : schema)
    (st : check_state) :
  check_loop f (pre ++ post) st
  = (st' <- check_loop f pre st ;; check_loop f post st').
Proof.
  revert st. induction pre as [|[name d] pre IH]; intros st;
    cbn [app check_loop].
  - reflexivity.
  - destruct (check_field f st name d); cbn [bind]; [apply IH | reflexivity].
Qed.

Lemma parse_loop_app (rec : descr -> str -> result odict) (hex : str)
    (pre post : schema) (st : parse_state) :
  parse_loop rec hex (pre ++ post) st
  = (st' <- parse_loop rec hex pre st ;; parse_loop rec hex post st').
Proof.
  revert st. induction pre as [|[name d] pre IH]; intros st;
    cbn [app parse_loop].
  - reflexivity.
  - destruct (parse_field rec hex st name d); cbn [bind];
      [apply IH | reflexivity].
Qed.

(** While the decoding loop runs over a well-formed run of fields, its
    cursors agree with the validator's count of the same fields. *)
Lemma parse_loop_agrees (rec : descr -> str -> result odict) (hex : str)
    (fields : schema) :
  forall cs csF st pst pstF,
    wf_run struct_ok fields cs = Some csF ->
    cs_ok cs ->
    check_agrees cs st ->
    parse_agrees cs (total_length_sum_bits st) pst ->
    parse_loop rec hex fields pst = OK pstF ->
    exists stF,
      check_loop struct_length fields st = OK stF
      /\ parse_agrees csF (total_length_sum_bits stF) pstF
      /\ total_length_sum_bits st <= total_length_sum_bits stF
      /\ (total_length_sum_bits st mod 8 = 0 ->
          total_length_sum_bits stF mod 8 = 0).
Proof.
  induction fields as [|[name d] rest IH];
    intros cs csF st pst pstF Hrun Hok Hagr Hpagr Hloop.
  - cbn in Hrun, Hloop. injection Hrun as <-. injection Hloop as <-.
    exists st. cbn [check_loop]. split_ands; auto. lia.
  - apply wf_run_cons in Hrun. destruct Hrun as [cs1 [Hstep Hrun]].
    destruct (wf_step_facts cs cs1 d) as (cw & pw & Hfacts & -> & Hok1);
      [intros sub h _ Hwf; exact (check_struct_wf sub Hwf) | exact Hstep
       | exact Hok |].
    destruct (check_field_step cs d cw pw st name Hfacts Hagr)
      as (st1 & Hchk1 & Hagr1 & Hsum & Htot1).
    cbn [parse_loop] in Hloop. apply bind_OK in Hloop.
    destruct Hloop as (pst1 & Hpst1 & Hloop).
    pose proof (parse_field_agrees _ _ _ _ _ _ _ _ _ _ _
                  Hfacts Hpagr Hpst1 Hsum) as Hpagr1.
    destruct (IH _ _ _ _ _ Hrun Hok1 Hagr1 Hpagr1 Hloop)
      as (stF & HchkF & HpagrF & HleF & HmodF).
    exists stF. cbn [check_loop]. rewrite Hchk1. cbn [bind].
    destruct Hfacts as (_ & _ & _ & Hcw & Hmod & _).
    split_ands; auto.
    + destruct Htot1 as [Heq | Heq]; rewrite Heq in HleF; lia.
    + intros Hm. apply HmodF.
      destruct Htot1 as [-> | ->]; [exact Hm|].
      rewrite Z.add_mod, Hm, Hmod by lia. reflexivity.
Qed.

(** ** Fields stored by the loop *)

Lemma extract_field_other_key (rec : descr -> str -> result odict)
    (st st' : parse_state) (name k : string) (d : descr) (pw : Z) :
  extract_field rec st name d pw = OK st' -> k <> name ->
  od_get k (fields_parsed st') = od_get k (fields_parsed st).
Proof.
  unfold extract_field. intros H Hk.
  destruct d; try (apply bind_OK in H; destruct H as [x [_ H]]);
    injection H as <-; cbn; now apply od_get_set_other.
Qed.

Lemma run_handler_other_key (st st' : parse_state) (name k : string)
    (d : descr) :
  run_handler st name d = OK st' -> k <> name ->
  od_get k (fields_parsed st') = od_get k (fields_parsed st).
Proof.
  unfold run_handler. intros H Hk.
  destruct (handler_of d) as [h|].
  - destruct (od_get name (fields_parsed st)) as [v|]; [|discriminate].
    apply bind_OK in H. destruct H as [v' [_ H]].
    injection H as <-. cbn. now apply od_get_set_other.
  - now injection H as <-.
Qed.

Lemma extract_container_fields (hex : str) (st : parse_state) (cw : Z) :
  fields_parsed (extract_container hex st cw) = fields_parsed st.
Proof. unfold extract_container. now destruct (first_packed_field st). Qed.

Lemma parse_field_other_key (rec : descr -> str -> result odict) (hex : str)
    (st st' : parse_state) (name k : string) (d : descr) :
  parse_field rec hex st name d = OK st' -> k <> name ->
  od_get k (fields_parsed st') = od_get k (fields_parsed st).
Proof.
  unfold parse_field. intros H Hk.
  apply bind_OK in H. destruct H as [[cw pw] [_ H]].
  apply bind_OK in H. destruct H as [st2 [H2 H]].
  apply bind_OK in H. destruct H as [st3 [H3 H]].
  injection H as <-. cbn [fields_parsed].
  rewrite (run_handler_other_key _ _ _ _ _ H3 Hk).
  rewrite (extract_field_other_key _ _ _ _ _ _ _ H2 Hk).
  now rewrite extract_container_fields.
Qed.

(** A stored field is not touched by the fields that follow it. *)
Lemma parse_loop_other_key (rec : descr -> str -> result odict) (hex : str)
    (fields : schema) (k : string) :
  od_get k fields = None ->
  forall st st', parse_loop rec hex fields st = OK st' ->
    od_get k (fields_parsed st') = od_get k (fields_parsed st).
Proof.
  induction fields as [|[name d] rest IH]; intros Hk st st' H.
  - now injection H as <-.
  - cbn [od_get] in Hk. destruct (String.eqb_spec k name) as [|Hne];
      [discriminate|].
    cbn [parse_loop] in H. apply bind_OK in H. destruct H as [st1 [H1 H]].
    rewrite (IH Hk _ _ H). exact (parse_field_other_key _ _ _ _ _ _ _ H1 Hne).
Qed.

Lemma keys_unique_app {A} (pre post : list (string * A)) :
  keys_unique (pre ++ post) = true -> keys_unique post = true.
Proof.
  induction pre as [|[k v] pre IH]; cbn [app keys_unique]; [auto|].
  destruct (od_get k (pre ++ post)); [discriminate | exact IH].
Qed.

Lemma keys_unique_tail {A} (k : string) (v : A) (post : list (string * A)) :
  keys_unique ((k, v) :: post) = true -> od_get k post = None.
Proof.
  cbn [keys_unique]. destruct (od_get k post); [discriminate | reflexivity].
Qed.

(** ** Nested structs *)

Lemma parse_struct_from_hex_loop (fields : schema) (hex : str) (r : odict) :
  parse_struct_from_hex fields hex = OK r ->
  exists stF, parse_loop parse_nested hex fields parse_init = OK stF
              /\ fields_parsed stF = r.
Proof.
  unfold parse_struct_from_hex, parse_body. intros H.
  apply bind_OK in H. destruct H as [_ [_ H]].
  apply bind_OK in H. destruct H as [stF [HF H]].
  injection H as <-. eauto.
Qed.

(** The decoder reaches a struct field with its byte cursor at the
    validated length of the preceding fields, decodes the nested schema
    on the slice of that length, and stores the result (passed through
    the handler of the field, if it has one). *)
Lemma struct_field_decoding (pre post : schema) (name : string) (N : schema)
    (h : option handler) (P : str) (r : odict) :
  well_formed (pre ++ (name, TypeStruct N h) :: post) = true ->
  keys_unique (pre ++ (name, TypeStruct N h) :: post) = true ->
  parse_struct_from_hex (pre ++ (name, TypeStruct N h) :: post) P = OK r ->
  exists K nbits v,
    0 <= K
    /\ check_struct pre = OK (8 * K)
    /\ check_struct N = OK nbits
    /\ parse_struct_from_hex N (py_slice P (2 * K) (2 * K + nbits / 4)) = OK v
    /\ match h with
       | None => od_get name r = Some (VDict v)
       | Some f => exists v', f (VDict v) = OK v' /\ od_get name r = Some v'
       end.
Proof.
  intros Hwf Hkeys Hparse.
  apply well_formed_run in Hwf. rewrite wf_run_app in Hwf.
  destruct (wf_run struct_ok pre Closed) as [cs1|] eqn:Hpre; [|discriminate].
  apply wf_run_cons in Hwf. destruct Hwf as [cs2 [Hstep _]].
  destruct cs1 as [|o c]; cbn [wf_step] in Hstep; [|discriminate].
  destruct (struct_ok (TypeStruct N h)) eqn:HN; [|discriminate].
  rewrite struct_ok_eq in HN.
  destruct (check_struct_wf N HN) as (nbits & Hnbits & Hnpos & _).
  apply parse_struct_from_hex_loop in Hparse.
  destruct Hparse as (stF & Hloop & <-).
  rewrite parse_loop_app in Hloop. apply bind_OK in Hloop.
  destruct Hloop as (pst1 & Hloop1 & Hloop).
  cbn [parse_loop] in Hloop. apply bind_OK in Hloop.
  destruct Hloop as (pst2 & Hfield & Hloop2).
  destruct (parse_loop_agrees parse_nested P pre Closed Closed
              (mkCheck 0 0 0) parse_init pst1 Hpre I)
    as (st1 & Hchk1 & [Hcfo Hfirst] & Hpos1 & Hmod1); auto.
  { split; [reflexivity | discriminate]. }
  { split; reflexivity. }
  cbn [total_length_sum_bits cs_pending] in *.
  specialize (Hmod1 eq_refl).
  set (K := total_length_sum_bits st1 / 8).
  assert (HK : total_length_sum_bits st1 = 8 * K).
  { subst K. Z.div_mod_to_equations. lia. }
  assert (HKpos : 0 <= K) by lia.
  exists K, nbits.
  assert (Hlens : field_lengths (TypeStruct N h) = OK (nbits, nbits)).
  { cbn [field_lengths]. rewrite struct_length_eq, Hnbits. reflexivity. }
  rewrite (parse_field_unfold _ _ _ _ _ _ _ Hlens) in Hfield.
  apply bind_OK in Hfield. destruct Hfield as (st2 & Hst2 & Hfield).
  apply bind_OK in Hfield. destruct Hfield as (st3 & Hst3 & Hfield).
  injection Hfield as <-.
  unfold extract_field in Hst2. apply bind_OK in Hst2.
  destruct Hst2 as (v & Hv & Hst2). injection Hst2 as <-.
  rewrite parse_nested_eq in Hv.
  assert (Hcv : container_value (extract_container P pst1 nbits)
                = py_slice P (2 * K) (2 * K + nbits / 4)).
  { unfold extract_container. rewrite Hfirst, Hcfo, Z.add_0_r, HK.
    cbn [container_value].
    replace (Z.quot (8 * K) 4) with (2 * K).
    - rewrite Z.quot_div_nonneg by lia.
      replace (4 * (2 * K) + nbits) with (2 * K * 4 + nbits) by lia.
      rewrite Z.div_add_l by lia. reflexivity.
    - rewrite Z.quot_div_nonneg by lia.
      replace (8 * K) with (2 * K * 4) by lia. now rewrite Z.div_mul. }
  rewrite Hcv in Hv. exists v.
  split_ands; auto.
  - unfold check_struct. rewrite Hchk1. cbn [bind]. now rewrite HK.
  - apply keys_unique_app, keys_unique_tail in Hkeys.
    rewrite (parse_loop_other_key _ _ _ _ Hkeys _ _ Hloop2).
    cbn [fields_parsed].
    unfold run_handler in Hst3. cbn [handler_of fields_parsed] in Hst3.
    destruct h as [f|].
    + rewrite od_get_set_same in Hst3.
      apply bind_OK in Hst3. destruct Hst3 as (v' & Hv' & Hst3).
      injection Hst3 as <-. cbn [fields_parsed].
      exists v'. split; [exact Hv' | apply od_get_set_same].
    + injection Hst3 as <-. cbn [fields_parsed]. apply od_get_set_same.
Qed.

(** C5. Nested struct equivalence: in a well-formed schema, the value
    stored for a struct field that starts at byte offset K of the payload
    P is the result of decoding the nested schema N on its own over the
    slice of P that starts at byte K and covers the validated bit length
    of N. *)
Theorem nested_struct_equivalence (pre post : schema) (name : string)
    (N : schema) (P : str) (r : odict) :
  well_formed (pre ++ (name, TypeStruct N None) :: post) = true ->
  keys_unique (pre ++ (name, TypeStruct N None) :: post) = true ->
  parse_struct_from_hex (pre ++ (name, TypeStruct N None) :: post) P = OK r ->
  exists K nbits v,
    0 <= K
    /\ check_struct pre = OK (8 * K)
    /\ check_struct N = OK nbits
    /\ parse_struct_from_hex N (py_slice P (2 * K) (2 * K + nbits / 4)) = OK v
    /\ od_get name r = Some (VDict v).
Proof.
  intros Hwf Hkeys Hparse.
  exact (struct_field_decoding pre post name N None P r Hwf Hkeys Hparse).
Qed.

Lemma nested_struct_equivalence_witness :
  exists K nbits v,
    0 <= K
    /\ check_struct [("a", Simple TYPE_8_BITS)] = OK (8 * K)
    /\ check_struct [("b", Simple TYPE_16_BITS)] = OK nbits
    /\ parse_struct_from_hex [("b", Simple TYPE_16_BITS)]
         (py_slice (txt "01f13502") (2 * K) (2 * K + nbits / 4)) = OK v
    /\ od_get "s"
         [("a", VInt 1); ("s", VDict [("b", VInt 0x35f1)]); ("c", VInt 2)]
       = Some (VDict v).
Proof.
  apply (nested_struct_equivalence
           [("a", Simple TYPE_8_BITS)] [("c", Simple TYPE_8_BITS)] "s"
           [("b", Simple TYPE_16_BITS)] (txt "01f13502")).
  - vm_compute. reflexivity.
  - vm_compute. reflexivity.
  - vm_compute. reflexivity.
Defined.

(** ** Handlers *)

Lemma od_set_comm {A} (k k' : string) (v v' : A) (d : list (string * A)) :
  k <> k' -> od_get k d <> None ->
  od_set k' v' (od_set k v d) = od_set k v (od_set k' v' d).
Proof.
  intros Hne. induction d as [|[k0 v0] d IH]; cbn [od_get]; intros Hin.
  - contradiction.
  - cbn [od_set].
    destruct (String.eqb_spec k k0) as [->|Hk];
      destruct (String.eqb_spec k' k0) as [->|Hk']; cbn [od_set].
    + contradiction.
    + rewrite String.eqb_refl.
      destruct (String.eqb_spec k' k0); [contradiction | reflexivity].
    + rewrite String.eqb_refl.
      destruct (String.eqb_spec k k0); [contradiction | reflexivity].
    + destruct (String.eqb_spec k k0); [contradiction|].
      destruct (String.eqb_spec k' k0); [contradiction|].
      now rewrite IH.
Qed.

Lemma check_field_without_handler (st : check_state) (name : string)
    (d : descr) :
  check_field struct_length st name (without_handler d)
  = check_field struct_length st name d.
Proof. destruct d; reflexivity. Qed.

Lemma check_struct_without_handler (pre post : schema) (name : string)
    (d : descr) :
  check_struct (pre ++ (name, without_handler d) :: post)
  = check_struct (pre ++ (name, d) :: post).
Proof.
  unfold check_struct. f_equal. generalize (mkCheck 0 0 0).
  induction pre as [|[name' d'] pre IH]; intros st; cbn [app check_loop].
  - now rewrite check_field_without_handler.
  - destruct (check_field struct_length st name' d'); cbn [bind];
      [apply IH | reflexivity].
Qed.

Lemma field_lengths_without_handler (d : descr) :
  field_lengths (without_handler d) = field_lengths d.
Proof. destruct d; reflexivity. Qed.

Lemma extract_field_without_handler (st : parse_state) (name : string)
    (d : descr) (pw : Z) :
  extract_field parse_nested st name (without_handler d) pw
  = extract_field parse_nested st name d pw.
Proof. destruct d; reflexivity. Qed.

Lemma run_handler_without_handler (st : parse_state) (name : string)
    (d : descr) :
  run_handler st name (without_handler d) = OK st.
Proof. destruct d; reflexivity. Qed.

(** The extraction stores a value of the kind of the field. *)
Lemma extract_field_stores (rec : descr -> str -> result odict)
    (st st' : parse_state) (name : string) (d : descr) (pw : Z) :
  extract_field rec st name d pw = OK st' ->
  exists v, od_get name (fields_parsed st') = Some v /\ raw_value_of d v.
Proof.
  unfold extract_field. intros H.
  destruct d; try (apply bind_OK in H; destruct H as [x [_ H]]);
    injection H as <-; cbn [fields_parsed]; eexists;
    (split; [apply od_get_set_same | exact I]).
Qed.

Lemma with_field_fields (k : string) (x : value) (st : parse_state) :
  fields_parsed (with_field k x st) = od_set k x (fields_parsed st).
Proof. reflexivity. Qed.

Lemma extract_container_with_field (hex : str) (k : string) (x : value)
    (st : parse_state) (cw : Z) :
  extract_container hex (with_field k x st) cw
  = with_field k x (extract_container hex st cw).
Proof.
  unfold extract_container, with_field. cbn.
  destruct (first_packed_field st) eqn:Hf; cbn; rewrite ?Hf; reflexivity.
Qed.

Lemma extract_field_with_field (rec : descr -> str -> result odict)
    (k name : string) (x : value) (st : parse_state) (d : descr) (pw : Z) :
  k <> name -> od_get k (fields_parsed st) <> None ->
  extract_field rec (with_field k x st) name d pw
  = (st' <- extract_field rec st name d pw ;; OK (with_field k x st')).
Proof.
  intros Hne Hin. unfold extract_field, with_field. cbn.
  destruct d; cbn;
    repeat match goal with
           | |- context [bind ?r _] => destruct r; cbn [bind]
           end;
    try reflexivity; now rewrite od_set_comm.
Qed.

Lemma run_handler_with_field (k name : string) (x : value) (st : parse_state)
    (d : descr) :
  k <> name -> od_get k (fields_parsed st) <> None ->
  run_handler (with_field k x st) name d
  = (st' <- run_handler st name d ;; OK (with_field k x st')).
Proof.
  intros Hne Hin. unfold run_handler.
  destruct (handler_of d) as [h|]; [|reflexivity].
  rewrite with_field_fields, od_get_set_other by congruence.
  destruct (od_get name (fields_parsed st)) as [v|]; [|reflexivity].
  destruct (h v) as [v'|e]; cbn [bind]; [|reflexivity].
  unfold with_field. cbn. now rewrite od_set_comm.
Qed.

Lemma parse_field_with_field (rec : descr -> str -> result odict) (hex : str)
    (k name : string) (x : value) (st : parse_state) (d : descr) :
  k <> name -> od_get k (fields_parsed st) <> None ->
  parse_field rec hex (with_field k x st) name d
  = (st' <- parse_field rec hex st name d ;; OK (with_field k x st')).
Proof.
  intros Hne Hin. unfold parse_field.
  destruct (field_lengths d) as [[cw pw]|e]; cbn [bind]; [|reflexivity].
  rewrite extract_container_with_field, extract_field_with_field;
    [| exact Hne | now rewrite extract_container_fields].
  destruct (extract_field rec (extract_container hex st cw) name d pw)
    as [st2|e] eqn:H2; cbn [bind]; [|reflexivity].
  rewrite run_handler_with_field; [| exact Hne |].
  - destruct (run_handler st2 name d) as [st3|e]; reflexivity.
  - rewrite (extract_field_other_key _ _ _ _ _ _ _ H2 Hne).
    now rewrite extract_container_fields.
Qed.

Lemma parse_loop_with_field (rec : descr -> str -> result odict) (hex : str)
    (k : string) (x : value) (fields : schema) :
  od_get k fields = None ->
  forall st, od_get k (fields_parsed st) <> None ->
    parse_loop rec hex fields (with_field k x st)
    = (st' <- parse_loop rec hex fields st ;; OK (with_field k x st')).
Proof.
  induction fields as [|[name d] rest IH]; intros Hk st Hin.
  - reflexivity.
  - cbn [od_get] in Hk. destruct (String.eqb_spec k name) as [|Hne];
      [discriminate|].
    cbn [parse_loop]. rewrite parse_field_with_field by assumption.
    destruct (parse_field rec hex st name d) as [st1|e] eqn:H1;
      cbn [bind]; [|reflexivity].
    apply IH; [exact Hk|].
    now rewrite (parse_field_other_key _ _ _ _ _ _ _ H1 Hne).
Qed.

(** C10. A callable third element is applied whatever the kind of the
    field: the decoder stores, under the name of the field, the callable
    applied to the value that the same schema without this handler
    stores there, which is an integer for a packed field, text for an
    array or a string, and the nested mapping for a struct; if the
    callable raises, so does the decoder. *)
Theorem handler_applied_to_every_kind (pre post : schema) (name : string)
    (d : descr) (h : handler) (P : str) (r0 : odict) (v : value) :
  handler_of d = Some h ->
  keys_unique (pre ++ (name, d) :: post) = true ->
  parse_struct_from_hex (pre ++ (name, without_handler d) :: post) P = OK r0 ->
  od_get name r0 = Some v ->
  raw_value_of d v
  /\ parse_struct_from_hex (pre ++ (name, d) :: post) P
     = (v' <- h v ;; OK (od_set name v' r0)).
Proof.
  intros Hh Hkeys Hraw Hv.
  apply keys_unique_app, keys_unique_tail in Hkeys.
  unfold parse_struct_from_hex, parse_body in *.
  apply bind_OK in Hraw. destruct Hraw as ([] & Hin & Hraw).
  apply bind_OK in Hraw. destruct Hraw as (stF0 & Hloop0 & Hr0).
  injection Hr0 as <-.
  assert (Hin' : check_input P (pre ++ (name, d) :: post) = OK tt).
  { unfold check_input in *.
    now rewrite <- check_struct_without_handler. }
  rewrite Hin'. cbn [bind].
  rewrite parse_loop_app in Hloop0 |- *.
  apply bind_OK in Hloop0. destruct Hloop0 as (pst1 & Hpre & Hloop0).
  rewrite Hpre. cbn [bind parse_loop] in Hloop0 |- *.
  apply bind_OK in Hloop0. destruct Hloop0 as (pst2 & Hfield0 & Hpost0).
  unfold parse_field in Hfield0 |- *.
  rewrite field_lengths_without_handler in Hfield0.
  destruct (field_lengths d) as [[cw pw]|e]; cbn [bind] in Hfield0 |- *;
    [|discriminate].
  rewrite extract_field_without_handler in Hfield0.
  destruct (extract_field parse_nested (extract_container P pst1 cw) name d pw)
    as [st2|e] eqn:Hst2; cbn [bind] in Hfield0 |- *; [|discriminate].
  rewrite run_handler_without_handler in Hfield0. cbn [bind] in Hfield0.
  injection Hfield0 as <-.
  destruct (extract_field_stores _ _ _ _ _ _ Hst2) as (v2 & Hv2 & Hkind).
  assert (v2 = v).
  { rewrite (parse_loop_other_key _ _ _ _ Hkeys _ _ Hpost0) in Hv.
    cbn [fields_parsed] in Hv. congruence. }
  subst v2. split; [exact Hkind|].
  unfold run_handler. rewrite Hh, Hv2.
  destruct (h v) as [v'|e]; cbn [bind]; [|reflexivity].
  match goal with
  | |- context [parse_loop _ _ post ?s] =>
      change s with
        (with_field name v'
           (mkParse (fields_parsed st2) (container_fields_offset st2)
                    (packed_field_offset st2 + pw)
                    (packed_field_offset st2 + pw =? cw)
                    (container_value st2)))
  end.
  rewrite parse_loop_with_field.
  - rewrite Hpost0. reflexivity.
  - exact Hkeys.
  - cbn [fields_parsed]. congruence.
Qed.

Example handler_on_array_string_struct :
  parse_struct_from_hex
    [("a", TypeArray 16 (Some text_length));
     ("s", TypeString 24 (Some text_length));
     ("t", TypeStruct [("x", Simple 8); ("y", Simple 8)] (Some text_length))]
    (txt "01024142430506")
  = OK [("a", VInt 4); ("s", VInt 3); ("t", VInt 2)]
  /\ parse_struct_from_hex
       [("a", TypeArray 16 None);
        ("s", TypeString 24 None);
        ("t", TypeStruct [("x", Simple 8); ("y", Simple 8)] None)]
       (txt "01024142430506")
     = OK [("a", VStr (txt "0102")); ("s", VStr (txt "ABC"));
           ("t", VDict [("x", VInt 5); ("y", VInt 6)])].
Proof. split; vm_compute; reflexivity. Qed.

Lemma handler_applied_to_every_kind_witness :
  raw_value_of (TypeString 24 (Some text_length)) (VStr (txt "ABC"))
  /\ parse_struct_from_hex
       ([("a", TypeArray 16 None)]
        ++ ("s", TypeString 24 (Some text_length))
        :: [("t", TypeStruct [("x", Simple 8); ("y", Simple 8)] None)])
       (txt "01024142430506")
     = (v' <- text_length (VStr (txt "ABC")) ;;
        OK (od_set "s" v'
              [("a", VStr (txt "0102")); ("s", VStr (txt "ABC"));
               ("t", VDict [("x", VInt 5); ("y", VInt 6)])])).
Proof.
  apply handler_applied_to_every_kind.
  - reflexivity.
  - vm_compute. reflexivity.
  - vm_compute. reflexivity.
  - vm_compute. reflexivity.
Defined.

(** * Further properties of [Tools.py] *)

(** ** More on slices *)

Lemma py_slice_app_l (s t : str) (lo hi : Z) :
  0 <= lo <= hi -> hi <= len s ->
  py_slice (s ++ t) lo hi = py_slice s lo hi.
Proof.
  intros Hlo Hhi. pose proof (len_nonneg t).
  rewrite !py_slice_in_range by (rewrite ?len_app; lia).
  rewrite skipn_app, firstn_app.
  replace (Z.to_nat (hi - lo) - List.length (skipn (Z.to_nat lo) s))%nat
    with 0%nat by (rewrite length_skipn; unfold len in *; lia).
  cbn [firstn]. now rewrite app_nil_r.
Qed.

Lemma py_slice_app_r (s t : str) (lo hi : Z) :
  0 <= lo <= hi -> hi <= len t ->
  py_slice (s ++ t) (len s + lo) (len s + hi) = py_slice t lo hi.
Proof.
  intros Hlo Hhi. pose proof (len_nonneg s).
  rewrite !py_slice_in_range by (rewrite ?len_app; lia).
  replace (len s + hi - (len s + lo)) with (hi - lo) by lia.
  f_equal. rewrite skipn_app.
  replace (Z.to_nat (len s + lo) - List.length s)%nat with (Z.to_nat lo)
    by (unfold len; lia).
  rewrite skipn_all2 by (unfold len; lia). reflexivity.
Qed.

Lemma py_slice_skip1 (c : ascii) (t : str) (lo hi : Z) :
  0 <= lo <= hi -> hi <= len t ->
  py_slice (c :: t) (lo + 1) (hi + 1) = py_slice t lo hi.
Proof.
  intros Hlo Hhi.
  rewrite !py_slice_in_range by (rewrite ?len_cons; lia).
  replace (hi + 1 - (lo + 1)) with (hi - lo) by lia.
  replace (Z.to_nat (lo + 1)) with (S (Z.to_nat lo)) by lia.
  reflexivity.
Qed.

Lemma py_slice_empty (s : str) (lo hi : Z) :
  slice_bound (len s) hi <= slice_bound (len s) lo -> py_slice s lo hi = [].
Proof.
  intros H. unfold py_slice. cbv zeta.
  replace (Z.to_nat _) with 0%nat at 1 by lia. reflexivity.
Qed.

Lemma py_range0_odd_step2 (n : nat) :
  py_range0 (2 * Z.of_nat n + 1) 2
  = map (fun k => Z.of_nat k * 2) (seq 0 (S n)).
Proof.
  unfold py_range0.
  replace ((2 * Z.of_nat n + 1 + 2 - 1) / 2) with (Z.of_nat (S n)).
  - rewrite Nat2Z.id. reflexivity.
  - apply Z.div_unique with (r := 0); lia.
Qed.

(** ** convert_endianess: byte positions, concatenation, odd lengths *)

(** X1. On a text of even length, [convert_endianess] moves byte [i]
    to position [N-1-i]: the characters [2i..2i+2] of the result are the
    characters [L-2i-2..L-2i] of the input. *)
Theorem convert_endianess_byte_positions (s : str) (i : Z) :
  len s mod 2 = 0 -> 0 <= i -> 2 * i + 2 <= len s ->
  py_slice (Tools.convert_endianess s) (2 * i) (2 * i + 2)
  = py_slice s (len s - 2 * i - 2) (len s - 2 * i).
Proof.
  intros Hev. apply len_even_iff in Hev. revert s Hev i.
  apply (str_pair_ind (fun s => forall i, 0 <= i -> 2 * i + 2 <= len s ->
    py_slice (Tools.convert_endianess s) (2 * i) (2 * i + 2)
    = py_slice s (len s - 2 * i - 2) (len s - 2 * i))).
  - intros i Hi Hle. change (len []) with 0 in Hle. lia.
  - intros a b t Hev IH i Hi Hle.
    rewrite convert_endianess_cons2 by exact Hev.
    rewrite !len_cons in *.
    assert (Hlen : len (Tools.convert_endianess t) = len t).
    { unfold len. now rewrite convert_endianess_length. }
    destruct (Z.eq_dec (2 * i) (len t)) as [Heq|Hne].
    + replace (2 * i) with (len (Tools.convert_endianess t) + 0) by lia.
      replace (len (Tools.convert_endianess t) + 0 + 2)
        with (len (Tools.convert_endianess t) + 2) by lia.
      rewrite py_slice_app_r by (cbn; lia).
      replace (len t + 1 + 1 - (len (Tools.convert_endianess t) + 0) - 2)
        with 0 by lia.
      replace (len t + 1 + 1 - (len (Tools.convert_endianess t) + 0))
        with 2 by lia.
      rewrite !py_slice_head2. reflexivity.
    + assert (Hev' : len t mod 2 = 0) by now apply len_even_iff.
      assert (2 * i + 2 <= len t) by (Z.div_mod_to_equations; lia).
      rewrite py_slice_app_l by lia.
      rewrite IH by lia.
      replace (len t + 1 + 1 - 2 * i - 2) with (len t - 2 * i - 2 + 2) by lia.
      replace (len t + 1 + 1 - 2 * i) with (len t - 2 * i + 2) by lia.
      rewrite py_slice_skip2 by lia. reflexivity.
Qed.

Lemma convert_endianess_byte_positions_witness :
  py_slice (Tools.convert_endianess (txt "12345abcdeff")) (2 * 1) (2 * 1 + 2)
  = py_slice (txt "12345abcdeff")
      (len (txt "12345abcdeff") - 2 * 1 - 2) (len (txt "12345abcdeff") - 2 * 1).
Proof.
  apply convert_endianess_byte_positions.
  - reflexivity.
  - lia.
  - vm_compute. discriminate.
Defined.

(** X2. [convert_endianess] of a concatenation of two texts of even
    length is the concatenation, in the other order, of their
    conversions. *)
Theorem convert_endianess_app (s t : str) :
  len s mod 2 = 0 -> len t mod 2 = 0 ->
  Tools.convert_endianess (s ++ t)
  = Tools.convert_endianess t ++ Tools.convert_endianess s.
Proof.
  intros Hs Ht. apply len_even_iff in Hs. apply len_even_iff in Ht.
  revert s Hs.
  apply (str_pair_ind (fun s => Tools.convert_endianess (s ++ t)
    = Tools.convert_endianess t ++ Tools.convert_endianess s)).
  - cbn [app]. rewrite convert_endianess_nil. now rewrite app_nil_r.
  - intros a b s Hs IH. cbn [app].
    rewrite !convert_endianess_cons2.
    + rewrite IH. now rewrite app_assoc.
    + exact Hs.
    + rewrite length_app. apply Nat.even_spec.
      apply Nat.even_spec in Hs. apply Nat.even_spec in Ht.
      destruct Hs as [x Hx], Ht as [y Hy]. exists (x + y)%nat. lia.
Qed.

Lemma convert_endianess_app_witness :
  Tools.convert_endianess (txt "0f51" ++ txt "2332")
  = Tools.convert_endianess (txt "2332") ++ Tools.convert_endianess (txt "0f51").
Proof.
  apply convert_endianess_app; reflexivity.
Defined.

(** X3. On a text of odd length, at least 3, [convert_endianess]
    silently drops the first character and converts the rest; a text of
    one character is returned unchanged. *)
Theorem convert_endianess_odd_length (c : ascii) (t : str) :
  len t mod 2 = 0 ->
  Tools.convert_endianess (c :: t)
  = match t with
    | [] => [c]
    | _ => Tools.convert_endianess t
    end.
Proof.
  intros Hev. destruct t as [|a t']; [reflexivity|].
  set (t := a :: t') in *.
  apply len_even_iff in Hev. destruct (even_length_half t Hev) as [n Hn].
  assert (Hn1 : (1 <= n)%nat) by (subst t; cbn [List.length] in Hn; lia).
  unfold Tools.convert_endianess. cbv zeta.
  assert (Hlt : len t = 2 * Z.of_nat n) by (unfold len; lia).
  rewrite len_cons, Hlt, py_range0_odd_step2, py_range0_step2.
  rewrite seq_S, map_app, fold_left_app. cbn [map fold_left Nat.add].
  rewrite py_slice_empty.
  - rewrite app_nil_r. apply fold_left_slices_ext. intros i Hi.
    apply in_map_iff in Hi. destruct Hi as [k [<- Hk]]. apply in_seq in Hk.
    replace (2 * Z.of_nat n + 1 - Z.of_nat k * 2 - 2)
      with ((2 * Z.of_nat n - Z.of_nat k * 2 - 2) + 1) by lia.
    replace (2 * Z.of_nat n + 1 - Z.of_nat k * 2)
      with ((2 * Z.of_nat n - Z.of_nat k * 2) + 1) by lia.
    apply py_slice_skip1; lia.
  - rewrite len_cons, Hlt. unfold slice_bound.
    destruct (Z.ltb_spec (2 * Z.of_nat n + 1 - Z.of_nat n * 2 - 2) 0); [|lia].
    destruct (Z.ltb_spec (2 * Z.of_nat n + 1 - Z.of_nat n * 2) 0); lia.
Qed.

Lemma convert_endianess_odd_length_witness :
  Tools.convert_endianess ("a"%char :: txt "f135")
  = match txt "f135" with
    | [] => ["a"%char]
    | _ => Tools.convert_endianess (txt "f135")
    end.
Proof.
  apply convert_endianess_odd_length. reflexivity.
Defined.

(** ** extract_value_from_hex: bounds and adjacent fields *)

(** X4. On a text that [int(s, 16)] reads as [n], with non-negative
    start bit and length, [extract_value_from_hex] returns the bit field
    [(n >> start_bit) mod 2**length_bits], which lies in
    [0 .. 2**length_bits - 1]. *)
Theorem extract_value_from_hex_range (s : str) (n start_bit length_bits : Z) :
  Tools.int16 s = OK n -> 0 <= start_bit -> 0 <= length_bits ->
  exists v,
    Tools.extract_value_from_hex s start_bit length_bits = OK v
    /\ v = (n / 2 ^ start_bit) mod 2 ^ length_bits
    /\ 0 <= v < 2 ^ length_bits.
Proof.
  intros Hn Hstart Hlen. eexists. split; [|split; [reflexivity|]].
  - now apply extract_value_from_hex_spec.
  - apply Z.mod_pos_bound. apply Z.pow_pos_nonneg; lia.
Qed.

Lemma extract_value_from_hex_range_witness :
  exists v,
    Tools.extract_value_from_hex (txt "0f521236") 12 16 = OK v
    /\ v = (0x0f521236 / 2 ^ 12) mod 2 ^ 16
    /\ 0 <= v < 2 ^ 16.
Proof.
  apply extract_value_from_hex_range.
  - reflexivity.
  - lia.
  - lia.
Defined.

(** X5. Two adjacent bit fields of one container text make up the field
    that covers both, the earlier one in the low bits:
    [extract(s, o, a) + 2**a * extract(s, o + a, b) = extract(s, o, a + b)]. *)
Theorem extract_value_from_hex_adjacent (s : str) (n o a b : Z) :
  Tools.int16 s = OK n -> 0 <= o -> 0 <= a -> 0 <= b ->
  exists lo hi,
    Tools.extract_value_from_hex s o a = OK lo
    /\ Tools.extract_value_from_hex s (o + a) b = OK hi
    /\ Tools.extract_value_from_hex s o (a + b) = OK (lo + 2 ^ a * hi).
Proof.
  intros Hn Ho Ha Hb.
  rewrite !(extract_value_from_hex_spec s n) by (assumption || lia).
  do 2 eexists. split_ands; try reflexivity. f_equal.
  assert (0 < 2 ^ o) by (apply Z.pow_pos_nonneg; lia).
  assert (0 < 2 ^ a) by (apply Z.pow_pos_nonneg; lia).
  assert (0 < 2 ^ b) by (apply Z.pow_pos_nonneg; lia).
  rewrite !Z.pow_add_r by lia.
  rewrite Z.rem_mul_r by lia.
  rewrite Z.div_div by lia. reflexivity.
Qed.

Lemma extract_value_from_hex_adjacent_witness :
  exists lo hi,
    Tools.extract_value_from_hex (txt "E3") 0 5 = OK lo
    /\ Tools.extract_value_from_hex (txt "E3") (0 + 5) 3 = OK hi
    /\ Tools.extract_value_from_hex (txt "E3") 0 (5 + 3)
       = OK (lo + 2 ^ 5 * hi).
Proof.
  apply (extract_value_from_hex_adjacent (txt "E3") 0xE3).
  - reflexivity.
  - lia.
  - lia.
  - lia.
Defined.

(** ** The little-endian encoders *)

Lemma forallb_below (f : Z -> bool) (n : nat) :
  forallb (fun k => f (Z.of_nat k)) (seq 0 n) = true ->
  forall z, 0 <= z < Z.of_nat n -> f z = true.
Proof.
  intros H z Hz. rewrite forallb_forall in H.
  specialize (H (Z.to_nat z)). rewrite Z2Nat.id in H by lia.
  apply H. apply in_seq. lia.
Qed.

(** A byte is formatted as its two uppercase hexadecimal digits. *)
Lemma format_02X_byte (b : Z) :
  0 <= b < 256 ->
  Tools.format_02X b
  = [Tools.hex_char_upper (b / 16); Tools.hex_char_upper (b mod 16)].
Proof.
  intros Hb.
  pose (f := fun z =>
    if list_eq_dec ascii_dec (Tools.format_02X z)
         [Tools.hex_char_upper (z / 16); Tools.hex_char_upper (z mod 16)]
    then true else false).
  assert (H : f b = true).
  { apply (forallb_below f 256); [vm_compute; reflexivity | exact Hb]. }
  unfold f in H. destruct (list_eq_dec _ _ _); [assumption | discriminate].
Qed.

Lemma hex_digit_upper (d : Z) :
  0 <= d < 16 -> Tools.hex_digit (Tools.hex_char_upper d) = Some d.
Proof.
  intros Hd.
  pose (f := fun z =>
    match Tools.hex_digit (Tools.hex_char_upper z) with
    | Some z' => z' =? z
    | None => false
    end).
  assert (H : f d = true).
  { apply (forallb_below f 16); [vm_compute; reflexivity | exact Hd]. }
  unfold f in H. destruct (Tools.hex_digit _); [|discriminate].
  apply Z.eqb_eq in H. now subst.
Qed.

Lemma land_255_range (x : Z) : 0 <= Z.land x 255 < 256.
Proof.
  change 255 with (Z.ones 8). rewrite Z.land_ones by lia.
  apply Z.mod_pos_bound. lia.
Qed.

(** Byte [i] of a number, as the encoders compute it. *)
Lemma byte_of_number (number i : Z) :
  0 <= i ->
  Z.land (Z.shiftr number (8 * i)) 255 = (number / 2 ^ (8 * i)) mod 256.
Proof.
  intros Hi. change 255 with (Z.ones 8).
  rewrite Z.land_ones, Z.shiftr_div_pow2 by lia. reflexivity.
Qed.

Lemma to_string_little_endian_succ (number : Z) (k : nat) :
  Tools.to_string_little_endian number (Z.of_nat (S k))
  = Tools.to_string_little_endian number (Z.of_nat k)
    ++ Tools.format_02X (Z.land (Z.shiftr number (8 * Z.of_nat k)) 255).
Proof.
  unfold Tools.to_string_little_endian.
  rewrite !py_range0_step1, seq_S, map_app, fold_left_app. reflexivity.
Qed.

Lemma to_string_little_endian_length (number : Z) (k : nat) :
  List.length (Tools.to_string_little_endian number (Z.of_nat k)) = (2 * k)%nat.
Proof.
  induction k as [|k IH]; [reflexivity|].
  rewrite to_string_little_endian_succ, length_app, IH.
  rewrite format_02X_byte by apply land_255_range. cbn [List.length]. lia.
Qed.

Lemma is_hex_digit_upper (d : Z) :
  0 <= d < 16 -> Tools.is_hex_digit (Tools.hex_char_upper d) = true.
Proof.
  intros Hd. unfold Tools.is_hex_digit. now rewrite hex_digit_upper.
Qed.

(** X6. [to_string_little_endian(number, length_bytes)] is a hex string
    of exactly [2*length_bytes] characters for every integer [number]
    (negative ones included) and every [length_bytes >= 0]; it is empty
    for [length_bytes <= 0]. *)
Theorem to_string_little_endian_shape (number length_bytes : Z) :
  len (Tools.to_string_little_endian number length_bytes)
  = 2 * Z.max 0 length_bytes
  /\ Tools.is_hex_string (Tools.to_string_little_endian number length_bytes)
     = true.
Proof.
  destruct (Z.le_gt_cases length_bytes 0) as [Hle|Hgt].
  - assert (Hnil : Tools.to_string_little_endian number length_bytes = []).
    { unfold Tools.to_string_little_endian, py_range0.
      replace (Z.to_nat ((length_bytes + 1 - 1) / 1)) with 0%nat
        by (rewrite Z.div_1_r; lia).
      reflexivity. }
    rewrite Hnil. split; [change (len []) with 0; lia | reflexivity].
  - rewrite <- (Z2Nat.id length_bytes) by lia.
    generalize (Z.to_nat length_bytes). intros k. split.
    + unfold len. rewrite to_string_little_endian_length. lia.
    + induction k as [|k IH]; [reflexivity|].
      rewrite to_string_little_endian_succ, is_hex_string_app, IH.
      rewrite format_02X_byte by apply land_255_range.
      pose proof (land_255_range (Z.shiftr number (8 * Z.of_nat k))).
      cbn [Tools.is_hex_string forallb andb].
      rewrite !is_hex_digit_upper; [reflexivity| |].
      * apply Z.mod_pos_bound. lia.
      * split; [apply Z.div_pos; lia | apply Z.div_lt_upper_bound; lia].
Qed.

(** X7. [to_word_little_endian(number)] is the two-byte case of
    [to_string_little_endian]. *)
Theorem to_word_is_two_byte_string (number : Z) :
  Tools.to_word_little_endian number
  = Tools.to_string_little_endian number 2.
Proof.
  unfold Tools.to_word_little_endian, Tools.to_string_little_endian.
  change (py_range0 2 1) with [0; 1]. cbn [fold_left app].
  change (8 * 0) with 0. change (8 * 1) with 8.
  now rewrite Z.shiftr_0_r.
Qed.

Lemma hex_value_acc (s : str) (acc : Z) :
  Tools.hex_value acc s
  = match Tools.hex_value 0 s with
    | Some v => Some (acc * 16 ^ len s + v)
    | None => None
    end.
Proof.
  revert acc. induction s as [|c s IH]; intros acc; cbn [Tools.hex_value].
  - cbn. f_equal. lia.
  - destruct (Tools.hex_digit c) as [d|]; [|reflexivity].
    rewrite IH. rewrite (IH (16 * 0 + d)).
    destruct (Tools.hex_value 0 s) as [v|]; [|reflexivity].
    f_equal. rewrite len_cons, Z.pow_add_r by (pose proof (len_nonneg s); lia).
    lia.
Qed.

Lemma hex_value_byte (b : Z) (rest : str) :
  0 <= b < 256 ->
  Tools.hex_value 0
    (Tools.hex_char_upper (b / 16) :: Tools.hex_char_upper (b mod 16) :: rest)
  = Tools.hex_value b rest.
Proof.
  intros Hb. cbn [Tools.hex_value].
  rewrite !hex_digit_upper.
  - f_equal. Z.div_mod_to_equations. lia.
  - apply Z.mod_pos_bound. lia.
  - split; [apply Z.div_pos; lia | apply Z.div_lt_upper_bound; lia].
Qed.

Lemma little_endian_value (number : Z) (k : nat) :
  Tools.hex_value 0
    (Tools.convert_endianess
       (Tools.to_string_little_endian number (Z.of_nat k)))
  = Some (number mod 2 ^ (8 * Z.of_nat k)).
Proof.
  induction k as [|k IH].
  - cbn. now rewrite Z.mod_1_r.
  - rewrite to_string_little_endian_succ.
    pose proof (land_255_range (Z.shiftr number (8 * Z.of_nat k))) as Hb.
    rewrite format_02X_byte by exact Hb.
    rewrite convert_endianess_snoc2.
    + rewrite hex_value_byte by exact Hb.
      rewrite hex_value_acc, IH. f_equal.
      unfold len. rewrite convert_endianess_length, to_string_little_endian_length.
      * rewrite byte_of_number by lia.
        replace (8 * Z.of_nat (S k)) with (8 * Z.of_nat k + 8) by lia.
        rewrite Z.pow_add_r by lia.
        assert (0 < 2 ^ (8 * Z.of_nat k)) by (apply Z.pow_pos_nonneg; lia).
        rewrite Z.rem_mul_r by lia.
        replace (16 ^ Z.of_nat (2 * k)) with (2 ^ (8 * Z.of_nat k)).
        -- change (2 ^ 8) with 256. lia.
        -- change 16 with (2 ^ 4). rewrite <- Z.pow_mul_r by lia.
           f_equal. lia.
      * rewrite to_string_little_endian_length.
        apply Nat.even_spec. exists k. lia.
    + rewrite to_string_little_endian_length.
      apply Nat.even_spec. exists k. lia.
Qed.

Lemma little_endian_int16 (number length_bytes : Z) :
  1 <= length_bytes ->
  Tools.int16
    (Tools.convert_endianess
       (Tools.to_string_little_endian number length_bytes))
  = OK (number mod 2 ^ (8 * length_bytes)).
Proof.
  intros Hk. rewrite <- (Z2Nat.id length_bytes) by lia.
  assert (Hpos : (1 <= Z.to_nat length_bytes)%nat) by lia.
  revert Hpos. generalize (Z.to_nat length_bytes). intros k Hpos.
  unfold Tools.int16. rewrite little_endian_value.
  destruct (Tools.convert_endianess _) eqn:Hnil; [|reflexivity].
  apply (f_equal (@List.length ascii)) in Hnil.
  rewrite convert_endianess_length, to_string_little_endian_length in Hnil.
  - cbn in Hnil. lia.
  - rewrite to_string_little_endian_length. apply Nat.even_spec. exists k. lia.
Qed.

(** X8. Encode/decode round trip: reading back, as the decoder does
    ([int(convert_endianess(s), 16)]), the text produced by
    [to_string_little_endian(number, length_bytes)] gives
    [number mod 2**(8*length_bytes)], for every integer [number] and
    [length_bytes >= 1]. *)
Theorem little_endian_round_trip (number length_bytes : Z) :
  1 <= length_bytes ->
  Tools.int16
    (Tools.convert_endianess
       (Tools.to_string_little_endian number length_bytes))
  = OK (number mod 2 ^ (8 * length_bytes)).
Proof. exact (little_endian_int16 number length_bytes). Qed.

Lemma little_endian_round_trip_witness :
  Tools.int16
    (Tools.convert_endianess (Tools.to_string_little_endian (-2) 3))
  = OK ((-2) mod 2 ^ (8 * 3)).
Proof.
  apply little_endian_round_trip. lia.
Defined.

(** ** get_byte_from_hex *)

Lemma hex_digit_range (c : ascii) (d : Z) :
  Tools.hex_digit c = Some d -> 0 <= d < 16.
Proof.
  unfold Tools.hex_digit. cbv zeta.
  repeat match goal with
         | |- context [if ?b then _ else _] => destruct b eqn:?
         end; intros [= <-]; break_andb; lia.
Qed.

Lemma int16_byte_range (a b : ascii) :
  Tools.is_hex_string [a; b] = true ->
  exists v, Tools.int16 [a; b] = OK v /\ 0 <= v < 256.
Proof.
  intros H. cbn [Tools.is_hex_string forallb] in H. break_andb.
  unfold Tools.is_hex_digit in *. unfold Tools.int16. cbn [Tools.hex_value].
  destruct (Tools.hex_digit a) as [da|] eqn:Ha; [|discriminate].
  destruct (Tools.hex_digit b) as [db|] eqn:Hb; [|discriminate].
  apply hex_digit_range in Ha, Hb. eexists. split; [reflexivity | lia].
Qed.

Lemma py_slice_two (s : str) (lo : Z) :
  0 <= lo -> lo + 2 <= len s ->
  exists a b, py_slice s lo (lo + 2) = [a; b].
Proof.
  intros Hlo Hhi.
  pose proof (py_slice_length s lo (lo + 2) ltac:(lia) Hhi) as Hlen.
  destruct (py_slice s lo (lo + 2)) as [|a [|b [|c r]]];
    unfold len in Hlen; cbn [List.length] in Hlen; try lia. eauto.
Qed.

Lemma hex_value_bound (s : str) (n : Z) :
  Tools.hex_value 0 s = Some n -> 0 <= n < 16 ^ len s.
Proof.
  revert n. induction s as [|c s IH]; intros n; cbn [Tools.hex_value].
  - intros [= <-]. cbn. lia.
  - destruct (Tools.hex_digit c) as [d|] eqn:Hd; [|discriminate].
    apply hex_digit_range in Hd. rewrite hex_value_acc.
    destruct (Tools.hex_value 0 s) as [v|]; [|discriminate].
    intros [= <-]. specialize (IH v eq_refl).
    pose proof (len_nonneg s).
    rewrite len_cons, Z.pow_add_r by lia. nia.
Qed.

(** X9. On a hex string and a position [>= 0],
    [get_byte_from_hex(position, hex_string)] returns a value in
    [0 .. 255] when the text has characters from index [2*position]
    on, and raises ValueError (from [int('', 16)]) when the position is
    at or past the end of the text. *)
Theorem get_byte_from_hex_bounds (position : Z) (hex_string : str) :
  0 <= position ->
  Tools.is_hex_string hex_string = true ->
  if 2 * position <? len hex_string
  then exists b, Tools.get_byte_from_hex position hex_string = OK b
                 /\ 0 <= b < 256
  else Tools.get_byte_from_hex position hex_string = Err ValueError.
Proof.
  intros Hpos Hhex. unfold Tools.get_byte_from_hex.
  pose proof (len_nonneg hex_string) as Hl.
  pose proof (is_hex_string_slice hex_string (2 * position)
                (2 * (position + 1)) Hhex) as Hs.
  destruct (Z.ltb_spec (2 * position) (len hex_string)) as [Hin|Hout].
  - assert (Hlen : 1 <= len (py_slice hex_string (2 * position)
                               (2 * (position + 1))) <= 2).
    { unfold py_slice. cbv zeta. unfold slice_bound.
      destruct (Z.ltb_spec (2 * position) 0); [lia|].
      destruct (Z.ltb_spec (2 * (position + 1)) 0); [lia|].
      unfold len in *. rewrite length_firstn, length_skipn. lia. }
    destruct (py_slice hex_string (2 * position) (2 * (position + 1)))
      as [|c cs] eqn:Hsl.
    + change (len []) with 0 in Hlen. lia.
    + unfold Tools.int16.
      destruct (hex_value_some (c :: cs) 0 Hs) as [n Hn]. rewrite Hn.
      exists n. split; [reflexivity|].
      pose proof (hex_value_bound _ _ Hn) as Hb.
      assert (16 ^ len (c :: cs) <= 16 ^ 2)
        by (apply Z.pow_le_mono_r; lia).
      change (16 ^ 2) with 256 in *. lia.
  - rewrite py_slice_empty; [reflexivity|].
    unfold slice_bound.
    destruct (Z.ltb_spec (2 * (position + 1)) 0); [lia|].
    destruct (Z.ltb_spec (2 * position) 0); lia.
Qed.

Lemma get_byte_from_hex_bounds_witness :
  if 2 * 3 <? len (txt "12345abcdeff")
  then exists b, Tools.get_byte_from_hex 3 (txt "12345abcdeff") = OK b
                 /\ 0 <= b < 256
  else Tools.get_byte_from_hex 3 (txt "12345abcdeff") = Err ValueError.
Proof.
  apply get_byte_from_hex_bounds.
  - lia.
  - reflexivity.
Defined.

Lemma get_byte_from_hex_app_l (s t : str) (i : Z) :
  0 <= i -> 2 * i + 2 <= len s ->
  Tools.get_byte_from_hex i (s ++ t) = Tools.get_byte_from_hex i s.
Proof.
  intros Hi Hle. unfold Tools.get_byte_from_hex.
  now rewrite py_slice_app_l by lia.
Qed.

Lemma get_byte_from_hex_app_r (s t : str) (n j : Z) :
  len s = 2 * n -> 0 <= j -> 2 * j + 2 <= len t ->
  Tools.get_byte_from_hex (n + j) (s ++ t) = Tools.get_byte_from_hex j t.
Proof.
  intros Hn Hj Hle. unfold Tools.get_byte_from_hex.
  replace (2 * (n + j)) with (len s + 2 * j) by lia.
  replace (2 * (n + j + 1)) with (len s + 2 * (j + 1)) by lia.
  now rewrite py_slice_app_r by lia.
Qed.

(** X10. Byte [i] of the text produced by
    [to_string_little_endian(number, length_bytes)] is byte [i] of the
    number, least significant first:
    [get_byte_from_hex(i, ...) = (number >> 8*i) & 0xFF]. *)
Theorem get_byte_of_little_endian_string (number length_bytes i : Z) :
  0 <= i < length_bytes ->
  Tools.get_byte_from_hex i
    (Tools.to_string_little_endian number length_bytes)
  = OK (Z.land (Z.shiftr number (8 * i)) 255).
Proof.
  intros [Hi Hlt]. rewrite <- (Z2Nat.id length_bytes) in * by lia.
  revert Hlt. generalize (Z.to_nat length_bytes). intros k.
  induction k as [|k IH]; intros Hlt; [lia|].
  rewrite to_string_little_endian_succ.
  assert (Hlen : len (Tools.to_string_little_endian number (Z.of_nat k))
                 = 2 * Z.of_nat k).
  { unfold len. rewrite to_string_little_endian_length. lia. }
  destruct (Z.eq_dec i (Z.of_nat k)) as [->|Hne].
  - pose proof (land_255_range (Z.shiftr number (8 * Z.of_nat k))) as Hb.
    rewrite format_02X_byte by exact Hb.
    replace (Z.of_nat k) with (Z.of_nat k + 0) at 1 by lia.
    rewrite (get_byte_from_hex_app_r _ _ (Z.of_nat k) 0 Hlen);
      [| lia | cbn; lia].
    unfold Tools.get_byte_from_hex.
    change (2 * 0) with 0. change (2 * (0 + 1)) with 2.
    rewrite py_slice_head2. unfold Tools.int16.
    rewrite hex_value_byte by exact Hb. reflexivity.
  - rewrite get_byte_from_hex_app_l by lia. apply IH. lia.
Qed.

Lemma get_byte_of_little_endian_string_witness :
  Tools.get_byte_from_hex 1 (Tools.to_string_little_endian 0x0f512332 4)
  = OK (Z.land (Z.shiftr 0x0f512332 (8 * 1)) 255).
Proof.
  apply get_byte_of_little_endian_string. lia.
Defined.

(** ** hex_string_to_char_string *)

Lemma char_loop_err (s : str) (l : list Z) (e : error) :
  fold_left
    (fun acc byte_n =>
       string <- acc ;;
       b <- Tools.get_byte_from_hex byte_n s ;;
       OK (string ++ [Tools.chr b]))
    l (Err e)
  = Err e.
Proof. induction l as [|i l IH]; [reflexivity | exact IH]. Qed.

Lemma char_loop_prefix (s : str) (l : list Z) (a c : str) :
  fold_left
    (fun acc byte_n =>
       string <- acc ;;
       b <- Tools.get_byte_from_hex byte_n s ;;
       OK (string ++ [Tools.chr b]))
    l (OK (a ++ c))
  = (r <- fold_left
            (fun acc byte_n =>
               string <- acc ;;
               b <- Tools.get_byte_from_hex byte_n s ;;
               OK (string ++ [Tools.chr b]))
            l (OK c) ;;
     OK (a ++ r)).
Proof.
  revert c. induction l as [|i l IH]; intros c; cbn [fold_left bind].
  - reflexivity.
  - destruct (Tools.get_byte_from_hex i s) as [b|e]; cbn [bind].
    + rewrite <- app_assoc. apply IH.
    + now rewrite !char_loop_err.
Qed.

Lemma char_loop_ext (s t : str) (l : list Z) (acc : result str) :
  (forall i, In i l ->
     Tools.get_byte_from_hex i s = Tools.get_byte_from_hex i t) ->
  fold_left
    (fun acc byte_n =>
       string <- acc ;;
       b <- Tools.get_byte_from_hex byte_n s ;;
       OK (string ++ [Tools.chr b]))
    l acc
  = fold_left
      (fun acc byte_n =>
         string <- acc ;;
         b <- Tools.get_byte_from_hex byte_n t ;;
         OK (string ++ [Tools.chr b]))
      l acc.
Proof.
  revert acc. induction l as [|i l IH]; intros acc H; cbn [fold_left].
  - reflexivity.
  - rewrite (H i) by now left. apply IH. intros j Hj. apply H. now right.
Qed.

Lemma half_length (s : str) :
  Z.quot (len s) 2 = Z.of_nat (Nat.div2 (List.length s)).
Proof.
  unfold len. rewrite Z.quot_div_nonneg by lia.
  rewrite Nat.div2_div, Nat2Z.inj_div. reflexivity.
Qed.

Lemma seq_from (n m : nat) :
  seq n m = map (fun j => (n + j)%nat) (seq 0 m).
Proof.
  induction n as [|n IH].
  - cbn [Nat.add]. now rewrite map_id.
  - rewrite <- seq_shift, IH, map_map. reflexivity.
Qed.

Lemma char_loop_shift (s t : str) (n : nat) (l : list nat)
    (acc : result str) :
  len s = 2 * Z.of_nat n ->
  (forall j, In j l -> (2 * j + 2 <= List.length t)%nat) ->
  fold_left
    (fun acc byte_n =>
       string <- acc ;;
       b <- Tools.get_byte_from_hex byte_n (s ++ t) ;;
       OK (string ++ [Tools.chr b]))
    (map (fun j => Z.of_nat (n + j)) l) acc
  = fold_left
      (fun acc byte_n =>
         string <- acc ;;
         b <- Tools.get_byte_from_hex byte_n t ;;
         OK (string ++ [Tools.chr b]))
      (map Z.of_nat l) acc.
Proof.
  intros Hlen. revert acc.
  induction l as [|j l IH]; intros acc H; cbn [map fold_left].
  - reflexivity.
  - rewrite Nat2Z.inj_add.
    rewrite (get_byte_from_hex_app_r s t (Z.of_nat n) (Z.of_nat j) Hlen).
    + apply IH. intros j' Hj'. apply H. now right.
    + lia.
    + specialize (H j (or_introl eq_refl)). unfold len. lia.
Qed.

Lemma hex_string_to_char_string_app_eq (s t : str) :
  len s mod 2 = 0 ->
  Tools.hex_string_to_char_string (s ++ t)
  = (a <- Tools.hex_string_to_char_string s ;;
     b <- Tools.hex_string_to_char_string t ;;
     OK (a ++ b)).
Proof.
  intros Hev. apply len_even_iff in Hev.
  destruct (even_length_half s Hev) as [n Hn].
  unfold Tools.hex_string_to_char_string.
  rewrite !half_length, !py_range0_step1.
  assert (Hlen : len s = 2 * Z.of_nat n) by (unfold len; lia).
  set (m := Nat.div2 (List.length t)).
  assert (Hm : (2 * m <= List.length t)%nat).
  { subst m. rewrite Nat.div2_div. apply Nat.Div0.mul_div_le. }
  replace (Nat.div2 (List.length (s ++ t))) with (n + m)%nat.
  2:{ rewrite length_app, Hn. subst m. rewrite !Nat.div2_div.
      rewrite Nat.mul_comm, Nat.div_add_l by lia. reflexivity. }
  replace (Nat.div2 (List.length s)) with n
    by (rewrite Hn; symmetry; apply Nat.div2_double).
  rewrite seq_app, map_app, fold_left_app. cbn [Nat.add].
  rewrite (char_loop_ext (s ++ t) s (map Z.of_nat (seq 0 n))).
  2:{ intros i Hi. apply in_map_iff in Hi. destruct Hi as [k [<- Hk]].
      apply in_seq in Hk. apply get_byte_from_hex_app_l; lia. }
  destruct (fold_left _ (map Z.of_nat (seq 0 n)) (OK [])) as [a|e];
    cbn [bind]; [|apply char_loop_err].
  rewrite <- (app_nil_r a) at 1. rewrite char_loop_prefix.
  f_equal. rewrite seq_from, map_map.
  apply char_loop_shift; [exact Hlen|].
  intros j Hj. apply in_seq in Hj. lia.
Qed.

Lemma hex_string_to_char_string_byte (a b : ascii) :
  Tools.hex_string_to_char_string [a; b]
  = (v <- Tools.int16 [a; b] ;; OK [Tools.chr v]).
Proof.
  unfold Tools.hex_string_to_char_string.
  change (py_range0 (Z.quot (len [a; b]) 2) 1) with [0].
  cbn [fold_left bind]. unfold Tools.get_byte_from_hex.
  change (2 * 0) with 0. change (2 * (0 + 1)) with 2.
  rewrite py_slice_head2. destruct (Tools.int16 [a; b]); reflexivity.
Qed.

(** X11. On hex strings, [hex_string_to_char_string] of a
    concatenation whose first part has even length is the concatenation
    of the two decoded texts. *)
Theorem hex_string_to_char_string_app (s t : str) :
  Tools.is_hex_string s = true -> Tools.is_hex_string t = true ->
  len s mod 2 = 0 ->
  Tools.hex_string_to_char_string (s ++ t)
  = (a <- Tools.hex_string_to_char_string s ;;
     b <- Tools.hex_string_to_char_string t ;;
     OK (a ++ b)).
Proof. intros _ _. exact (hex_string_to_char_string_app_eq s t). Qed.

Lemma hex_string_to_char_string_app_witness :
  Tools.hex_string_to_char_string (txt "5572" ++ txt "7567756179")
  = (a <- Tools.hex_string_to_char_string (txt "5572") ;;
     b <- Tools.hex_string_to_char_string (txt "7567756179") ;;
     OK (a ++ b)).
Proof.
  apply hex_string_to_char_string_app; reflexivity.
Defined.

(** X12. A trailing half byte is ignored: after a hex string of even
    length, one more character, whatever it is, does not change the
    result of [hex_string_to_char_string]; that character is never
    read. *)
Theorem hex_string_to_char_string_odd_tail (s : str) (c : ascii) :
  Tools.is_hex_string s = true ->
  len s mod 2 = 0 ->
  Tools.hex_string_to_char_string (s ++ [c])
  = Tools.hex_string_to_char_string s.
Proof.
  intros _ Hev. rewrite hex_string_to_char_string_app_eq by exact Hev.
  change (Tools.hex_string_to_char_string [c]) with (@OK str []).
  destruct (Tools.hex_string_to_char_string s) as [a|e]; cbn [bind].
  - now rewrite app_nil_r.
  - reflexivity.
Qed.

Lemma hex_string_to_char_string_odd_tail_witness :
  Tools.hex_string_to_char_string (txt "557275" ++ ["z"%char])
  = Tools.hex_string_to_char_string (txt "557275").
Proof.
  apply hex_string_to_char_string_odd_tail; reflexivity.
Defined.

Lemma hex_string_to_char_string_even (s : str) :
  Nat.even (List.length s) = true ->
  Tools.is_hex_string s = true ->
  exists r, Tools.hex_string_to_char_string s = OK r /\ 2 * len r = len s.
Proof.
  revert s. apply (str_pair_ind (fun s => Tools.is_hex_string s = true ->
    exists r, Tools.hex_string_to_char_string s = OK r
              /\ 2 * len r = len s)).
  - intros _. exists []. split; reflexivity.
  - intros a b t Hev IH Hhex.
    change (a :: b :: t) with ([a; b] ++ t) in *.
    rewrite is_hex_string_app in Hhex. apply andb_prop in Hhex.
    destruct Hhex as [Hab Ht].
    rewrite hex_string_to_char_string_app_eq by reflexivity.
    rewrite hex_string_to_char_string_byte.
    destruct (int16_byte_range a b Hab) as (v & Hv & _).
    rewrite Hv. cbn [bind].
    destruct (IH Ht) as (r & Hr & Hlen). rewrite Hr. cbn [bind].
    eexists. split; [reflexivity|].
    cbn [app]. rewrite !len_cons. lia.
Qed.

(** X13. On a hex string of even length, [hex_string_to_char_string]
    succeeds and returns one character per byte. *)
Theorem hex_string_to_char_string_total (s : str) :
  len s mod 2 = 0 ->
  Tools.is_hex_string s = true ->
  exists r, Tools.hex_string_to_char_string s = OK r /\ 2 * len r = len s.
Proof.
  intros Hev. apply len_even_iff in Hev.
  now apply hex_string_to_char_string_even.
Qed.

Lemma hex_string_to_char_string_total_witness :
  exists r, Tools.hex_string_to_char_string (txt "55727567756179") = OK r
            /\ 2 * len r = len (txt "55727567756179").
Proof.
  apply hex_string_to_char_string_total; reflexivity.
Defined.

(** * Further properties of [BinaryParser.py] *)

(** ** The length returned by check_struct *)

Lemma check_field_total (f : descr -> result Z) (st st' : check_state)
    (name : string) (d : descr) :
  check_field f st name d = OK st' ->
  (total_length_sum_bits st' - total_length_sum_bits st) mod 8 = 0.
Proof.
  unfold check_field. intros H.
  apply bind_OK in H. destruct H as [[fl cl] [_ H]].
  destruct (Z.eqb_spec (cl mod 8) 0) as [Hmod|]; cbn [negb] in H;
    [|discriminate].
  destruct (Z.gtb_spec (chk_packed_field_offset st + fl) cl) as [|Hle];
    [discriminate|].
  destruct (Z.ltb_spec (chk_packed_field_offset st + fl) cl) as [Hlt|Hge].
  - destruct (_ && _); [discriminate|]. injection H as <-. cbn.
    now rewrite Z.sub_diag.
  - assert (Heq : chk_packed_field_offset st + fl = cl) by lia.
    injection H as <-. cbn.
    replace (total_length_sum_bits st + (chk_packed_field_offset st + fl)
             - total_length_sum_bits st) with cl by lia.
    exact Hmod.
Qed.

Lemma check_loop_total (f : descr -> result Z) (fields : schema) :
  forall st st',
    check_loop f fields st = OK st' ->
    (total_length_sum_bits st' - total_length_sum_bits st) mod 8 = 0.
Proof.
  induction fields as [|[name d] rest IH]; intros st st' H.
  - injection H as <-. now rewrite Z.sub_diag.
  - apply check_loop_cons in H. destruct H as (st1 & H1 & H).
    apply check_field_total in H1. apply IH in H.
    replace (total_length_sum_bits st' - total_length_sum_bits st)
      with ((total_length_sum_bits st' - total_length_sum_bits st1)
            + (total_length_sum_bits st1 - total_length_sum_bits st)) by lia.
    rewrite Z.add_mod, H, H1 by lia. reflexivity.
Qed.

(** X14. Whatever the schema, a length returned by [check_struct] is a
    multiple of 8; hence a payload that passes the length comparison of
    [parse_struct_from_hex] always has an even number of hex digits. *)
Theorem check_struct_whole_bytes (fields : schema) (n : Z) :
  check_struct fields = OK n ->
  n mod 8 = 0
  /\ forall hex_string, n = len hex_string * 4 -> len hex_string mod 2 = 0.
Proof.
  intros H. apply check_struct_total in H. destruct H as (stF & H & <-).
  apply check_loop_total in H. cbn in H. rewrite Z.sub_0_r in H.
  split; [exact H|]. intros hex Hlen. Z.div_mod_to_equations. lia.
Qed.

Lemma check_struct_whole_bytes_witness :
  344 mod 8 = 0
  /\ forall hex_string, 344 = len hex_string * 4 -> len hex_string mod 2 = 0.
Proof.
  apply (check_struct_whole_bytes Canonical.fields). vm_compute. reflexivity.
Defined.

(** ** check_struct on a concatenation *)


Lemma check_field_add_total (f : descr -> result Z) (a : Z)
    (st : check_state) (name : string) (d : descr) :
  check_field f (add_total a st) name d
  = (st' <- check_field f st name d ;; OK (add_total a st')).
Proof.
  unfold check_field, add_total. cbn [chk_packed_field_offset
    total_length_sum_bits prev_container_length].
  destruct (match d with
            | Simple w =>
                if chk_packed_field_offset st =? 0 then OK (w, w)
                else Err (PreviousFieldsDoNotMatch name)
            | Packed w container_info _ => OK (w, container_info)
            | TypeArray bits _ | TypeString bits _ => OK (bits, bits)
            | TypeStruct _ _ => field_length <- f d ;; OK (field_length, field_length)
            end) as [[fl cl]|e]; cbn [bind]; [|reflexivity].
  destruct (negb (cl mod 8 =? 0)); [reflexivity|].
  destruct (_ >? _); [reflexivity|].
  destruct (_ <? _).
  - destruct (_ && _); reflexivity.
  - cbn [bind]. unfold add_total. cbn. f_equal. f_equal. lia.
Qed.

Lemma check_loop_add_total (f : descr -> result Z) (a : Z) (fields : schema) :
  forall st,
    check_loop f fields (add_total a st)
    = (st' <- check_loop f fields st ;; OK (add_total a st')).
Proof.
  induction fields as [|[name d] rest IH]; intros st; cbn [check_loop].
  - reflexivity.
  - rewrite check_field_add_total.
    destruct (check_field f st name d) as [st1|e]; cbn [bind];
      [apply IH | reflexivity].
Qed.

(** At a container boundary the previous container length is not
    looked at. *)
Lemma check_field_boundary (f : descr -> result Z) (t p p' : Z)
    (name : string) (d : descr) :
  check_field f (mkCheck t 0 p) name d = check_field f (mkCheck t 0 p') name d.
Proof. unfold check_field. cbn. reflexivity. Qed.

Lemma check_loop_boundary_total (f : descr -> result Z) (fields : schema)
    (t p p' : Z) :
  (st <- check_loop f fields (mkCheck t 0 p) ;; OK (total_length_sum_bits st))
  = (st <- check_loop f fields (mkCheck t 0 p') ;;
     OK (total_length_sum_bits st)).
Proof.
  destruct fields as [|[name d] rest]; cbn [check_loop bind].
  - reflexivity.
  - now rewrite (check_field_boundary f t p p').
Qed.

Lemma check_struct_app_eq (pre post : schema) :
  well_formed pre = true ->
  check_struct (pre ++ post)
  = (a <- check_struct pre ;; b <- check_struct post ;; OK (a + b)).
Proof.
  intros Hwf. apply well_formed_run in Hwf.
  destruct (check_loop_wf pre (nested_lengths_ok_all pre) Closed Closed
              (mkCheck 0 0 0) Hwf I)
    as (stF & Hpre & [Hoff _] & _).
  { split; [reflexivity | discriminate]. }
  unfold check_struct. rewrite check_loop_app, Hpre. cbn [bind].
  destruct stF as [a o p]. cbn [cs_offset chk_packed_field_offset] in Hoff.
  subst o. cbn [total_length_sum_bits].
  rewrite (check_loop_boundary_total struct_length post a p 0).
  replace (mkCheck a 0 0) with (add_total a (mkCheck 0 0 0))
    by (unfold add_total; cbn; f_equal; lia).
  rewrite check_loop_add_total.
  destruct (check_loop struct_length post (mkCheck 0 0 0)) as [st|e];
    reflexivity.
Qed.

(** X15. The validated length is additive: when the first part of a
    schema is well formed (it ends at a container boundary),
    [check_struct] of the whole schema is the sum of the lengths of the
    two parts, and fails as the second part does. *)
Theorem check_struct_app (pre post : schema) :
  well_formed pre = true ->
  check_struct (pre ++ post)
  = (a <- check_struct pre ;; b <- check_struct post ;; OK (a + b)).
Proof. exact (check_struct_app_eq pre post). Qed.

Lemma check_struct_app_witness :
  check_struct (Canonical.sub_struct_format ++ Canonical.fields)
  = (a <- check_struct Canonical.sub_struct_format ;;
     b <- check_struct Canonical.fields ;;
     OK (a + b)).
Proof.
  apply check_struct_app. vm_compute. reflexivity.
Defined.

(** ** An under-filled container in the middle of a schema *)

Lemma check_field_open_rejects (f : descr -> result Z) (st : check_state)
    (name : string) (d : descr) :
  0 < chk_packed_field_offset st ->
  is_numeric d = false \/ (exists w, d = Simple w) ->
  exists e, check_field f st name d = Err e.
Proof.
  intros Hoff Hd. unfold check_field.
  destruct d as [w|w c h|b h|b h|sub h].
  - destruct (Z.eqb_spec (chk_packed_field_offset st) 0); [lia|].
    cbn [bind]. eauto.
  - destruct Hd as [Hd | [w' Hd]]; discriminate.
  - cbn [bind]. destruct (negb (b mod 8 =? 0)); [eauto|].
    destruct (Z.gtb_spec (chk_packed_field_offset st + b) b); [eauto | lia].
  - cbn [bind]. destruct (negb (b mod 8 =? 0)); [eauto|].
    destruct (Z.gtb_spec (chk_packed_field_offset st + b) b); [eauto | lia].
  - destruct (f (TypeStruct sub h)) as [l|e]; cbn [bind]; [|eauto].
    destruct (negb (l mod 8 =? 0)); [eauto|].
    destruct (Z.gtb_spec (chk_packed_field_offset st + l) l); [eauto | lia].
Qed.

(** X16. A packed run that is still under-filled when a simple, array,
    string or struct field arrives is always rejected: if the loop of
    [check_struct] leaves the fields [pre] with a positive packed
    offset, every schema [pre ++ (name, d) :: post] with such a field
    [d] fails with one of the schema errors. *)
Theorem check_struct_rejects_open_container (pre post : schema)
    (name : string) (d : descr) (st : check_state) :
  check_loop struct_length pre (mkCheck 0 0 0) = OK st ->
  0 < chk_packed_field_offset st ->
  match d with Packed _ _ _ => False | _ => True end ->
  exists e, check_struct (pre ++ (name, d) :: post) = Err e
            /\ is_schema_error e = true.
Proof.
  intros Hpre Hoff Hd.
  assert (H : exists e, check_struct (pre ++ (name, d) :: post) = Err e).
  { unfold check_struct. rewrite check_loop_app, Hpre. cbn [bind check_loop].
    destruct (check_field_open_rejects struct_length st name d Hoff)
      as [e He].
    - destruct d; [right; eauto | contradiction | left; reflexivity ..].
    - rewrite He. cbn [bind]. eauto. }
  destruct H as [e He]. exists e. split; [exact He|].
  exact (check_struct_error _ _ He).
Qed.

Lemma check_struct_rejects_open_container_witness :
  exists e,
    check_struct ([("a", Packed 5 TYPE_8_BITS None)]
                  ++ ("b", TypeArray 16 None) :: [("c", Simple TYPE_8_BITS)])
    = Err e
    /\ is_schema_error e = true.
Proof.
  apply (check_struct_rejects_open_container
           [("a", Packed 5 TYPE_8_BITS None)] [("c", Simple TYPE_8_BITS)]
           "b" (TypeArray 16 None) (mkCheck 0 5 8)).
  - reflexivity.
  - reflexivity.
  - exact I.
Defined.

(** X17. A packed field that does not fit in what is left of its
    container is rejected with the overflow error, and the decoder
    raises that error, before reading any field, on every payload of
    even length. *)
Theorem packed_overflow_rejected (pre post : schema) (name : string)
    (w c : Z) (h : option handler) (st : check_state) (hex_string : str) :
  check_loop struct_length pre (mkCheck 0 0 0) = OK st ->
  c mod 8 = 0 ->
  chk_packed_field_offset st + w > c ->
  len hex_string mod 2 = 0 ->
  check_struct (pre ++ (name, Packed w c h) :: post)
  = Err (ContainerOverflow name)
  /\ parse_struct_from_hex (pre ++ (name, Packed w c h) :: post) hex_string
     = Err (ContainerOverflow name).
Proof.
  intros Hpre Hmod Hover Hev.
  assert (H : check_struct (pre ++ (name, Packed w c h) :: post)
              = Err (ContainerOverflow name)).
  { unfold check_struct. rewrite check_loop_app, Hpre.
    cbn [bind check_loop]. unfold check_field. cbn [bind].
    rewrite Hmod. cbn [Z.eqb negb].
    destruct (Z.gtb_spec (chk_packed_field_offset st + w) c); [|lia].
    reflexivity. }
  split; [exact H|].
  unfold parse_struct_from_hex, parse_body, check_input.
  rewrite Hev, H. reflexivity.
Qed.

Lemma packed_overflow_rejected_witness :
  check_struct ([("a", Packed 5 TYPE_8_BITS None)]
                ++ ("b", Packed 4 TYPE_8_BITS None) :: [])
  = Err (ContainerOverflow "b")
  /\ parse_struct_from_hex
       ([("a", Packed 5 TYPE_8_BITS None)]
        ++ ("b", Packed 4 TYPE_8_BITS None) :: [])
       (txt "e3")
     = Err (ContainerOverflow "b").
Proof.
  apply (packed_overflow_rejected [("a", Packed 5 TYPE_8_BITS None)] []
           "b" 4 8 None (mkCheck 0 5 8)).
  - reflexivity.
  - reflexivity.
  - reflexivity.
  - reflexivity.
Defined.

(** ** The mapping returned by the decoder *)

Lemma od_set_absent {A} (k : string) (v : A) (d : list (string * A)) :
  od_get k d = None -> od_set k v d = d ++ [(k, v)].
Proof.
  induction d as [|[k' v'] d IH]; cbn [od_get od_set app]; intros H.
  - reflexivity.
  - destruct (String.eqb k k'); [discriminate|]. now rewrite IH.
Qed.

Lemma od_set_keys_present {A} (k : string) (v : A) (d : list (string * A)) :
  od_get k d <> None -> map fst (od_set k v d) = map fst d.
Proof.
  induction d as [|[k' v'] d IH]; cbn [od_get od_set]; intros H.
  - contradiction.
  - destruct (String.eqb_spec k k') as [->|Hne]; cbn [map fst].
    + reflexivity.
    + now rewrite IH.
Qed.

Lemma extract_field_fields (rec : descr -> str -> result odict)
    (st st' : parse_state) (name : string) (d : descr) (pw : Z) :
  extract_field rec st name d pw = OK st' ->
  exists v, fields_parsed st' = od_set name v (fields_parsed st).
Proof.
  unfold extract_field. intros H.
  destruct d; try (apply bind_OK in H; destruct H as [x [_ H]]);
    injection H as <-; cbn [fields_parsed]; eauto.
Qed.

Lemma run_handler_keys (st st' : parse_state) (name : string) (d : descr) :
  run_handler st name d = OK st' ->
  map fst (fields_parsed st') = map fst (fields_parsed st).
Proof.
  unfold run_handler. intros H. destruct (handler_of d) as [h|].
  - destruct (od_get name (fields_parsed st)) as [v|] eqn:Hv; [|discriminate].
    apply bind_OK in H. destruct H as [v' [_ H]]. injection H as <-.
    cbn [fields_parsed]. apply od_set_keys_present. congruence.
  - now injection H as <-.
Qed.

Lemma parse_field_keys (rec : descr -> str -> result odict) (hex : str)
    (st st' : parse_state) (name : string) (d : descr) :
  parse_field rec hex st name d = OK st' ->
  od_get name (fields_parsed st) = None ->
  map fst (fields_parsed st') = map fst (fields_parsed st) ++ [name].
Proof.
  unfold parse_field. intros H Hnew.
  apply bind_OK in H. destruct H as [[cw pw] [_ H]].
  apply bind_OK in H. destruct H as [st2 [H2 H]].
  apply bind_OK in H. destruct H as [st3 [H3 H]].
  injection H as <-. cbn [fields_parsed].
  rewrite (run_handler_keys _ _ _ _ H3).
  apply extract_field_fields in H2. destruct H2 as [v ->].
  rewrite extract_container_fields, od_set_absent by exact Hnew.
  now rewrite map_app.
Qed.

Lemma parse_loop_keys (rec : descr -> str -> result odict) (hex : str)
    (fields : schema) :
  keys_unique fields = true ->
  forall st st',
    (forall k, od_get k fields <> None -> od_get k (fields_parsed st) = None) ->
    parse_loop rec hex fields st = OK st' ->
    map fst (fields_parsed st') = map fst (fields_parsed st) ++ map fst fields.
Proof.
  induction fields as [|[name d] rest IH]; intros Hu st st' Hnew H.
  - injection H as <-. cbn. now rewrite app_nil_r.
  - cbn [parse_loop] in H. apply bind_OK in H. destruct H as [st1 [H1 H]].
    pose proof (keys_unique_tail _ _ _ Hu) as Hname.
    cbn [keys_unique] in Hu. rewrite Hname in Hu.
    assert (Hn : od_get name (fields_parsed st) = None).
    { apply Hnew. cbn [od_get]. rewrite String.eqb_refl. discriminate. }
    rewrite (IH Hu st1 st'); [| |exact H].
    + rewrite (parse_field_keys _ _ _ _ _ _ H1 Hn).
      cbn [map fst]. now rewrite <- app_assoc.
    + intros k Hk.
      assert (Hne : k <> name) by (intros ->; contradiction).
      rewrite (parse_field_other_key _ _ _ _ _ _ _ H1 Hne).
      apply Hnew. cbn [od_get].
      destruct (String.eqb_spec k name); [contradiction | exact Hk].
Qed.

(** X18. The mapping returned by [parse_struct_from_hex] has exactly
    the field names of the schema, in the order of the schema. *)
Theorem parse_struct_from_hex_keys (fields : schema) (hex_string : str)
    (r : odict) :
  keys_unique fields = true ->
  parse_struct_from_hex fields hex_string = OK r ->
  map fst r = map fst fields.
Proof.
  intros Hu H. apply parse_struct_from_hex_loop in H.
  destruct H as (stF & Hloop & <-).
  exact (parse_loop_keys _ _ _ Hu parse_init stF (fun _ _ => eq_refl) Hloop).
Qed.

Lemma parse_struct_from_hex_keys_witness :
  map fst [("field-1", VInt 3); ("field-2", VInt 7)]
  = map fst [("field-1", Packed 5 TYPE_8_BITS None);
             ("field-2", Packed 3 TYPE_8_BITS None)].
Proof.
  apply (parse_struct_from_hex_keys _ (txt "E3")).
  - reflexivity.
  - vm_compute. reflexivity.
Defined.

(** X19. Whatever the payload, the value decoded for a simple field or
    for a packed field without handler, of declared width [w], is an
    integer in [0 .. 2**w - 1]. *)
Theorem numeric_field_in_range (pre post : schema) (name : string)
    (d : descr) (w : Z) (hex_string : str) (r : odict) :
  d = Simple w \/ (exists c, d = Packed w c None) ->
  keys_unique (pre ++ (name, d) :: post) = true ->
  parse_struct_from_hex (pre ++ (name, d) :: post) hex_string = OK r ->
  exists v, od_get name r = Some (VInt v) /\ 0 <= v < 2 ^ w.
Proof.
  intros Hd Hkeys Hparse.
  apply keys_unique_app, keys_unique_tail in Hkeys.
  apply parse_struct_from_hex_loop in Hparse.
  destruct Hparse as (stF & Hloop & <-).
  rewrite parse_loop_app in Hloop. apply bind_OK in Hloop.
  destruct Hloop as (pst1 & _ & Hloop).
  cbn [parse_loop] in Hloop. apply bind_OK in Hloop.
  destruct Hloop as (pst2 & Hfield & Hpost).
  rewrite (parse_loop_other_key _ _ _ _ Hkeys _ _ Hpost).
  assert (Hlens : exists cw, field_lengths d = OK (cw, w)
                             /\ handler_of d = None /\ is_numeric d = true).
  { destruct Hd as [-> | [c ->]]; eexists; split_ands; reflexivity. }
  destruct Hlens as (cw & Hlens & Hh & Hnum).
  rewrite (parse_field_unfold _ _ _ _ _ _ _ Hlens) in Hfield.
  apply bind_OK in Hfield. destruct Hfield as (st2 & Hst2 & Hfield).
  apply bind_OK in Hfield. destruct Hfield as (st3 & Hst3 & Hfield).
  injection Hfield as <-. cbn [fields_parsed].
  unfold run_handler in Hst3. rewrite Hh in Hst3. injection Hst3 as <-.
  unfold extract_field in Hst2.
  assert (Hv : exists v,
             Tools.extract_value_from_hex
               (if first_packed_field (extract_container hex_string pst1 cw)
                then Tools.convert_endianess
                       (container_value (extract_container hex_string pst1 cw))
                else container_value (extract_container hex_string pst1 cw))
               (packed_field_offset (extract_container hex_string pst1 cw)) w
             = OK v
             /\ od_get name (fields_parsed st2) = Some (VInt v)).
  { destruct d; try discriminate Hnum;
      apply bind_OK in Hst2; destruct Hst2 as (v & Hv & Hst2);
      injection Hst2 as <-; exists v; (split; [exact Hv|]);
      cbn [fields_parsed]; apply od_get_set_same. }
  destruct Hv as (v & Hv & Hget). exists v. split; [exact Hget|].
  exact (extract_value_bounds _ _ _ _ Hv).
Qed.

Lemma numeric_field_in_range_witness :
  exists v,
    od_get "field-2" [("field-1", VInt 3); ("field-2", VInt 7)]
    = Some (VInt v)
    /\ 0 <= v < 2 ^ 3.
Proof.
  apply (numeric_field_in_range
           [("field-1", Packed 5 TYPE_8_BITS None)] [] "field-2"
           (Packed 3 TYPE_8_BITS None) 3 (txt "E3")).
  - right. exists TYPE_8_BITS. reflexivity.
  - reflexivity.
  - vm_compute. reflexivity.
Defined.

(** ** Fields that are their own container *)

(** In a well-formed schema, a field that is not packed is reached with
    the byte cursor at the validated length [8*K] of the fields before
    it; its container text is the slice of the payload that starts at
    byte [K]. *)
Lemma own_container_field (pre post : schema) (name : string) (d : descr)
    (P : str) (r : odict) :
  match d with Packed _ _ _ => False | _ => True end ->
  well_formed (pre ++ (name, d) :: post) = true ->
  keys_unique (pre ++ (name, d) :: post) = true ->
  parse_struct_from_hex (pre ++ (name, d) :: post) P = OK r ->
  exists K cw pst st2 st3,
    0 <= K
    /\ check_struct pre = OK (8 * K)
    /\ field_lengths d = OK (cw, cw)
    /\ 0 <= cw
    /\ first_packed_field pst = true
    /\ packed_field_offset pst = 0
    /\ container_value pst = py_slice P (2 * K) (2 * K + cw / 4)
    /\ extract_field parse_nested pst name d cw = OK st2
    /\ run_handler st2 name d = OK st3
    /\ od_get name r = od_get name (fields_parsed st3).
Proof.
  intros Hd Hwf Hkeys Hparse.
  apply well_formed_run in Hwf. rewrite wf_run_app in Hwf.
  destruct (wf_run struct_ok pre Closed) as [cs1|] eqn:Hpre; [|discriminate].
  apply wf_run_cons in Hwf. destruct Hwf as [cs2 [Hstep _]].
  assert (Hcs1 : cs1 = Closed).
  { destruct cs1 as [|o c]; [reflexivity|].
    destruct d; cbn [wf_step] in Hstep; try discriminate. contradiction. }
  subst cs1.
  destruct (wf_step_facts Closed cs2 d) as (cw & pw & Hfacts & _ & _);
    [intros sub h _ Hs; exact (check_struct_wf sub Hs) | exact Hstep
     | exact I |].
  destruct Hfacts as (Hlens & _ & _ & Hcw & _ & _ & Hkind).
  assert (Hpw : pw = cw).
  { destruct d; try contradiction; apply Hkind. }
  subst pw.
  apply parse_struct_from_hex_loop in Hparse.
  destruct Hparse as (stF & Hloop & <-).
  rewrite parse_loop_app in Hloop. apply bind_OK in Hloop.
  destruct Hloop as (pst1 & Hloop1 & Hloop).
  cbn [parse_loop] in Hloop. apply bind_OK in Hloop.
  destruct Hloop as (pst2 & Hfield & Hloop2).
  destruct (parse_loop_agrees parse_nested P pre Closed Closed
              (mkCheck 0 0 0) parse_init pst1 Hpre I)
    as (st1 & Hchk1 & [Hcfo Hfirst] & Hpos1 & Hmod1); auto.
  { split; [reflexivity | discriminate]. }
  { split; reflexivity. }
  cbn [total_length_sum_bits cs_pending] in *.
  specialize (Hmod1 eq_refl).
  set (K := total_length_sum_bits st1 / 8).
  assert (HK : total_length_sum_bits st1 = 8 * K).
  { subst K. Z.div_mod_to_equations. lia. }
  assert (HKpos : 0 <= K) by lia.
  rewrite (parse_field_unfold _ _ _ _ _ _ _ Hlens) in Hfield.
  apply bind_OK in Hfield. destruct Hfield as (st2 & Hst2 & Hfield).
  apply bind_OK in Hfield. destruct Hfield as (st3 & Hst3 & Hfield).
  injection Hfield as <-.
  exists K, cw, (extract_container P pst1 cw), st2, st3.
  split_ands; auto.
  - unfold check_struct. rewrite Hchk1. cbn [bind]. now rewrite HK.
  - unfold extract_container. now rewrite Hfirst.
  - unfold extract_container. now rewrite Hfirst.
  - unfold extract_container. rewrite Hfirst, Hcfo, Z.add_0_r, HK.
    cbn [container_value].
    replace (Z.quot (8 * K) 4) with (2 * K).
    + rewrite Z.quot_div_nonneg by lia.
      replace (4 * (2 * K) + cw) with (2 * K * 4 + cw) by lia.
      rewrite Z.div_add_l by lia. reflexivity.
    + rewrite Z.quot_div_nonneg by lia.
      replace (8 * K) with (2 * K * 4) by lia. now rewrite Z.div_mul.
  - apply keys_unique_app, keys_unique_tail in Hkeys.
    now rewrite (parse_loop_other_key _ _ _ _ Hkeys _ _ Hloop2).
Qed.

(** X20. An array field is kept as raw hex text, with no endian
    conversion: in a well-formed schema, the value stored for an array
    of [bits] bits that starts at byte [K] of the payload is the slice
    [P[2K : 2K + bits/4]] itself. *)
Theorem array_field_is_raw_slice (pre post : schema) (name : string)
    (bits : Z) (P : str) (r : odict) :
  well_formed (pre ++ (name, TypeArray bits None) :: post) = true ->
  keys_unique (pre ++ (name, TypeArray bits None) :: post) = true ->
  parse_struct_from_hex (pre ++ (name, TypeArray bits None) :: post) P = OK r ->
  exists K,
    0 <= K
    /\ check_struct pre = OK (8 * K)
    /\ od_get name r = Some (VStr (py_slice P (2 * K) (2 * K + bits / 4))).
Proof.
  intros Hwf Hkeys Hparse.
  destruct (own_container_field pre post name (TypeArray bits None) P r I Hwf Hkeys
              Hparse)
    as (K & cw & pst & st2 & st3 & HK & Hpre & Hlens & _ & _ & _ & Hcv
        & Hst2 & Hst3 & Hget).
  injection Hlens as <-.
  exists K. split_ands; auto. rewrite Hget.
  injection Hst3 as <-. injection Hst2 as <-. cbn [fields_parsed].
  rewrite Hcv. apply od_get_set_same.
Qed.

Lemma array_field_is_raw_slice_witness :
  exists K,
    0 <= K
    /\ check_struct [("a", Simple TYPE_8_BITS)] = OK (8 * K)
    /\ od_get "raw"
         [("a", VInt 1); ("raw", VStr (txt "f135")); ("c", VInt 2)]
       = Some (VStr (py_slice (txt "01f13502") (2 * K) (2 * K + 16 / 4))).
Proof.
  apply (array_field_is_raw_slice
           [("a", Simple TYPE_8_BITS)] [("c", Simple TYPE_8_BITS)] "raw"
           16 (txt "01f13502")).
  - vm_compute. reflexivity.
  - vm_compute. reflexivity.
  - vm_compute. reflexivity.
Defined.

(** X21. A string field is decoded byte by byte in payload order, with
    no endian conversion: in a well-formed schema, the value stored for
    a string of [bits] bits that starts at byte [K] is
    [hex_string_to_char_string(P[2K : 2K + bits/4])]. *)
Theorem string_field_is_decoded_slice (pre post : schema) (name : string)
    (bits : Z) (P : str) (r : odict) :
  well_formed (pre ++ (name, TypeString bits None) :: post) = true ->
  keys_unique (pre ++ (name, TypeString bits None) :: post) = true ->
  parse_struct_from_hex (pre ++ (name, TypeString bits None) :: post) P = OK r ->
  exists K text,
    0 <= K
    /\ check_struct pre = OK (8 * K)
    /\ Tools.hex_string_to_char_string
         (py_slice P (2 * K) (2 * K + bits / 4)) = OK text
    /\ od_get name r = Some (VStr text).
Proof.
  intros Hwf Hkeys Hparse.
  destruct (own_container_field pre post name (TypeString bits None) P r I Hwf Hkeys
              Hparse)
    as (K & cw & pst & st2 & st3 & HK & Hpre & Hlens & _ & _ & _ & Hcv
        & Hst2 & Hst3 & Hget).
  injection Hlens as <-.
  unfold extract_field in Hst2. apply bind_OK in Hst2.
  destruct Hst2 as (text & Htext & Hst2).
  exists K, text. rewrite <- Hcv. split_ands; auto. rewrite Hget.
  injection Hst3 as <-. injection Hst2 as <-. cbn [fields_parsed].
  apply od_get_set_same.
Qed.

Lemma string_field_is_decoded_slice_witness :
  exists K text,
    0 <= K
    /\ check_struct [("a", Simple TYPE_8_BITS)] = OK (8 * K)
    /\ Tools.hex_string_to_char_string
         (py_slice (txt "01414202") (2 * K) (2 * K + 16 / 4)) = OK text
    /\ od_get "s" [("a", VInt 1); ("s", VStr (txt "AB")); ("c", VInt 2)]
       = Some (VStr text).
Proof.
  apply (string_field_is_decoded_slice
           [("a", Simple TYPE_8_BITS)] [("c", Simple TYPE_8_BITS)] "s"
           16 (txt "01414202")).
  - vm_compute. reflexivity.
  - vm_compute. reflexivity.
  - vm_compute. reflexivity.
Defined.

(** X22. A simple field is read as a little-endian integer: in a
    well-formed schema, the value stored for a simple field of [w] bits
    that starts at byte [K] is, modulo [2**w], the number that
    [int(..., 16)] reads in the byte-reversed slice [P[2K : 2K + w/4]]. *)
Theorem simple_field_is_little_endian (pre post : schema) (name : string)
    (w : Z) (P : str) (r : odict) :
  well_formed (pre ++ (name, Simple w) :: post) = true ->
  keys_unique (pre ++ (name, Simple w) :: post) = true ->
  parse_struct_from_hex (pre ++ (name, Simple w) :: post) P = OK r ->
  exists K n,
    0 <= K
    /\ check_struct pre = OK (8 * K)
    /\ Tools.int16
         (Tools.convert_endianess (py_slice P (2 * K) (2 * K + w / 4)))
       = OK n
    /\ od_get name r = Some (VInt (n mod 2 ^ w)).
Proof.
  intros Hwf Hkeys Hparse.
  destruct (own_container_field pre post name (Simple w) P r I Hwf Hkeys
              Hparse)
    as (K & cw & pst & st2 & st3 & HK & Hpre & Hlens & Hcw & Hfirst & Hoff
        & Hcv & Hst2 & Hst3 & Hget).
  injection Hlens as <-.
  unfold extract_field in Hst2. rewrite Hfirst, Hoff, Hcv in Hst2.
  apply bind_OK in Hst2. destruct Hst2 as (v & Hv & Hst2).
  unfold Tools.extract_value_from_hex in Hv.
  apply bind_OK in Hv. destruct Hv as (n & Hn & Hv).
  exists K, n. split_ands; auto. rewrite Hget.
  injection Hst3 as <-. injection Hst2 as <-. cbn [fields_parsed].
  rewrite od_get_set_same. do 2 f_equal.
  pose proof (extract_value_from_hex_spec _ n 0 w Hn (Z.le_refl 0) Hcw) as Hs.
  unfold Tools.extract_value_from_hex in Hs. rewrite Hn in Hs.
  cbn [bind] in Hs. rewrite Hs in Hv. injection Hv as <-.
  change (2 ^ 0) with 1. now rewrite Z.div_1_r.
Qed.

Lemma simple_field_is_little_endian_witness :
  exists K n,
    0 <= K
    /\ check_struct [("a", Simple TYPE_8_BITS)] = OK (8 * K)
    /\ Tools.int16
         (Tools.convert_endianess
            (py_slice (txt "01f13502") (2 * K) (2 * K + 16 / 4)))
       = OK n
    /\ od_get "v" [("a", VInt 1); ("v", VInt 0x35f1); ("c", VInt 2)]
       = Some (VInt (n mod 2 ^ 16)).
Proof.
  apply (simple_field_is_little_endian
           [("a", Simple TYPE_8_BITS)] [("c", Simple TYPE_8_BITS)] "v"
           16 (txt "01f13502")).
  - vm_compute. reflexivity.
  - vm_compute. reflexivity.
  - vm_compute. reflexivity.
Defined.

(** ** Decoding what the encoder wrote *)

Lemma check_struct_single_simple (name : string) (w : Z) :
  w mod 8 = 0 -> check_struct [(name, Simple w)] = OK w.
Proof.
  intros Hmod. unfold check_struct. cbn [check_loop bind].
  unfold check_field. cbn [chk_packed_field_offset total_length_sum_bits
                           prev_container_length].
  change (0 =? 0) with true. cbn [bind]. rewrite Hmod.
  change (0 =? 0) with true. cbn [negb]. rewrite !Z.add_0_l.
  rewrite Z.gtb_ltb, Z.ltb_irrefl. reflexivity.
Qed.

Lemma to_string_little_endian_len (number length_bytes : Z) :
  0 <= length_bytes ->
  len (Tools.to_string_little_endian number length_bytes) = 2 * length_bytes.
Proof.
  intros Hk. rewrite <- (Z2Nat.id length_bytes) at 1 by lia.
  unfold len. rewrite to_string_little_endian_length. lia.
Qed.

(** X23. Round trip through the decoder: a schema with one simple
    field of [8*length_bytes] bits decodes the text written by
    [to_string_little_endian(number, length_bytes)] to
    [number mod 2**(8*length_bytes)], for every integer [number] and
    every [length_bytes >= 1]. *)
Theorem decode_little_endian_string (name : string)
    (number length_bytes : Z) :
  1 <= length_bytes ->
  parse_struct_from_hex [(name, Simple (8 * length_bytes))]
    (Tools.to_string_little_endian number length_bytes)
  = OK [(name, VInt (number mod 2 ^ (8 * length_bytes)))].
Proof.
  intros Hk.
  set (H := Tools.to_string_little_endian number length_bytes).
  assert (Hlen : len H = 2 * length_bytes)
    by (apply to_string_little_endian_len; lia).
  assert (Hmod : (8 * length_bytes) mod 8 = 0)
    by (rewrite Z.mul_comm; apply Z_mod_mult).
  unfold parse_struct_from_hex, parse_body, check_input.
  rewrite (check_struct_single_simple name _ Hmod), Hlen.
  replace ((2 * length_bytes) mod 2) with 0
    by (rewrite Z.mul_comm, Z_mod_mult; reflexivity).
  change (0 =? 0) with true. cbn [negb bind].
  replace (8 * length_bytes =? 2 * length_bytes * 4) with true
    by (symmetry; apply Z.eqb_eq; lia).
  cbn [negb bind parse_loop].
  unfold parse_field. cbn [field_lengths bind].
  unfold extract_container, parse_init.
  cbn [first_packed_field container_fields_offset fields_parsed].
  change (Z.quot 0 4) with 0. rewrite Z.mul_0_r, !Z.add_0_l.
  replace (Z.quot (8 * length_bytes) 4) with (len H).
  2:{ rewrite Hlen, Z.quot_div_nonneg by lia.
      replace (8 * length_bytes) with (2 * length_bytes * 4) by lia.
      now rewrite Z.div_mul. }
  rewrite py_slice_all.
  unfold extract_field.
  cbn [first_packed_field container_value packed_field_offset
       fields_parsed container_fields_offset].
  subst H.
  rewrite (extract_value_from_hex_spec _ _ 0 (8 * length_bytes)
             (little_endian_int16 number length_bytes Hk))
    by lia.
  cbn [bind]. unfold run_handler. cbn [handler_of bind fields_parsed od_set].
  change (2 ^ 0) with 1. rewrite Z.div_1_r, Z.mod_mod.
  - reflexivity.
  - apply Z.pow_nonzero; lia.
Qed.

Lemma decode_little_endian_string_witness :
  parse_struct_from_hex [("value", Simple (8 * 2))]
    (Tools.to_string_little_endian 0x35f1 2)
  = OK [("value", VInt (0x35f1 mod 2 ^ (8 * 2)))].
Proof.
  apply decode_little_endian_string. lia.
Defined.

(** ** Decoding a concatenation *)

Lemma py_slice_app_shift (s t : str) (x y : Z) :
  0 <= x -> 0 <= y ->
  py_slice (s ++ t) (len s + x) (len s + y) = py_slice t x y.
Proof.
  intros Hx Hy. pose proof (len_nonneg s). pose proof (len_nonneg t).
  unfold py_slice. cbv zeta. rewrite len_app.
  assert (Hb : forall z, 0 <= z ->
            slice_bound (len s + len t) (len s + z)
            = len s + slice_bound (len t) z).
  { intros z Hz. unfold slice_bound.
    destruct (Z.ltb_spec (len s + z) 0); [lia|].
    destruct (Z.ltb_spec z 0); lia. }
  rewrite !Hb by assumption.
  assert (Hlo : 0 <= slice_bound (len t) x).
  { unfold slice_bound. destruct (Z.ltb_spec x 0); lia. }
  replace (len s + slice_bound (len t) y - (len s + slice_bound (len t) x))
    with (slice_bound (len t) y - slice_bound (len t) x) by lia.
  f_equal. rewrite skipn_app.
  rewrite skipn_all2 by (unfold len in *; lia).
  replace (Z.to_nat (len s + slice_bound (len t) x) - List.length s)%nat
    with (Z.to_nat (slice_bound (len t) x)) by (unfold len in *; lia).
  reflexivity.
Qed.

Lemma od_set_app_r {A} (k : string) (v : A) (r1 d : list (string * A)) :
  od_get k r1 = None -> od_set k v (r1 ++ d) = r1 ++ od_set k v d.
Proof.
  induction r1 as [|[k' v'] r1 IH]; cbn [od_get od_set app]; intros H.
  - reflexivity.
  - destruct (String.eqb k k'); [discriminate|]. now rewrite IH.
Qed.

Lemma od_get_app_r {A} (k : string) (r1 d : list (string * A)) :
  od_get k r1 = None -> od_get k (r1 ++ d) = od_get k d.
Proof.
  induction r1 as [|[k' v'] r1 IH]; cbn [od_get app]; intros H.
  - reflexivity.
  - destruct (String.eqb k k'); [discriminate|]. now apply IH.
Qed.

Lemma od_get_in {A} (k : string) (d : list (string * A)) :
  od_get k d <> None <-> In k (map fst d).
Proof.
  induction d as [|[k' v'] d IH]; cbn [od_get map fst In].
  - split; [congruence | contradiction].
  - destruct (String.eqb_spec k k') as [->|Hne].
    + split; [now left | discriminate].
    + rewrite IH. split; [now right | intros [H|H]; congruence].
Qed.

Lemma keys_unique_disjoint {A} (pre post : list (string * A)) (k : string) :
  keys_unique (pre ++ post) = true ->
  In k (map fst post) -> ~ In k (map fst pre).
Proof.
  induction pre as [|[k0 v0] pre IH]; cbn [app keys_unique map fst In].
  - intros _ _ [].
  - destruct (od_get k0 (pre ++ post)) eqn:Hk0; [discriminate|].
    intros Hu Hin [->|Hpre].
    + assert (Hc : od_get k (pre ++ post) <> None).
      { apply od_get_in. rewrite map_app. apply in_or_app. now right. }
      contradiction.
    + exact (IH Hu Hin Hpre).
Qed.

Lemma od_get_app_none {A} (k : string) (pre post : list (string * A)) :
  od_get k (pre ++ post) = None -> od_get k pre = None.
Proof.
  induction pre as [|[k' v'] pre IH]; cbn [od_get app]; [reflexivity|].
  destruct (String.eqb k k'); [discriminate | exact IH].
Qed.

Lemma keys_unique_prefix {A} (pre post : list (string * A)) :
  keys_unique (pre ++ post) = true -> keys_unique pre = true.
Proof.
  induction pre as [|[k v] pre IH]; cbn [app keys_unique]; [reflexivity|].
  destruct (od_get k (pre ++ post)) eqn:Hk; [discriminate|].
  rewrite (od_get_app_none _ _ _ Hk). exact IH.
Qed.

Lemma extract_container_shift (P1 P2 : str) (r1 : odict) (st : parse_state)
    (cw : Z) :
  0 <= container_fields_offset st -> 0 <= cw ->
  extract_container (P1 ++ P2) (shift_state r1 (4 * len P1) st) cw
  = shift_state r1 (4 * len P1) (extract_container P2 st cw).
Proof.
  intros Hc Hcw. pose proof (len_nonneg P1) as Hl.
  unfold extract_container, shift_state.
  cbn [first_packed_field container_fields_offset fields_parsed
       packed_field_offset container_value].
  destruct (first_packed_field st) eqn:Hf;
    cbn [first_packed_field container_fields_offset fields_parsed
         packed_field_offset container_value]; [|now rewrite Hf].
  set (c := container_fields_offset st) in *.
  assert (Hq0 : 0 <= c / 4) by (apply Z.div_pos; lia).
  assert (Hq1 : Z.quot (4 * len P1 + c) 4 = len P1 + Z.quot c 4).
  { rewrite (Z.quot_div_nonneg c 4), Z.quot_div_nonneg by lia.
    replace (4 * len P1 + c) with (len P1 * 4 + c) by lia.
    now rewrite Z.div_add_l by lia. }
  assert (Hq2 : Z.quot (4 * (len P1 + Z.quot c 4) + cw) 4
                = len P1 + Z.quot (4 * Z.quot c 4 + cw) 4).
  { rewrite (Z.quot_div_nonneg c 4) by lia.
    rewrite !Z.quot_div_nonneg by lia.
    replace (4 * (len P1 + c / 4) + cw)
      with (len P1 * 4 + (4 * (c / 4) + cw)) by lia.
    now rewrite Z.div_add_l by lia. }
  rewrite Hq1, Hq2, py_slice_app_shift.
  - f_equal. lia.
  - rewrite Z.quot_div_nonneg by lia. exact Hq0.
  - rewrite (Z.quot_div_nonneg c 4) by lia.
    rewrite Z.quot_div_nonneg by lia. apply Z.div_pos; lia.
Qed.

Lemma extract_field_shift (rec : descr -> str -> result odict) (r1 : odict)
    (off : Z) (st : parse_state) (name : string) (d : descr) (pw : Z) :
  od_get name r1 = None ->
  extract_field rec (shift_state r1 off st) name d pw
  = (st' <- extract_field rec st name d pw ;; OK (shift_state r1 off st')).
Proof.
  intros Hnew. unfold extract_field, shift_state. cbn.
  destruct d; cbn;
    repeat match goal with
           | |- context [bind ?r _] => destruct r; cbn [bind]
           end;
    try reflexivity; now rewrite od_set_app_r.
Qed.

Lemma run_handler_shift (r1 : odict) (off : Z) (st : parse_state)
    (name : string) (d : descr) :
  od_get name r1 = None ->
  run_handler (shift_state r1 off st) name d
  = (st' <- run_handler st name d ;; OK (shift_state r1 off st')).
Proof.
  intros Hnew. unfold run_handler.
  destruct (handler_of d) as [h|]; [|reflexivity].
  unfold shift_state at 1. cbn [fields_parsed].
  rewrite od_get_app_r by exact Hnew.
  destruct (od_get name (fields_parsed st)) as [v|]; [|reflexivity].
  destruct (h v) as [v'|e]; cbn [bind]; [|reflexivity].
  unfold shift_state. cbn. now rewrite od_set_app_r.
Qed.

Lemma parse_field_shift (rec : descr -> str -> result odict) (P1 P2 : str)
    (r1 : odict) (st : parse_state) (name : string) (d : descr) (cw pw : Z) :
  field_lengths d = OK (cw, pw) -> 0 <= cw ->
  0 <= container_fields_offset st ->
  od_get name r1 = None ->
  parse_field rec (P1 ++ P2) (shift_state r1 (4 * len P1) st) name d
  = (st' <- parse_field rec P2 st name d ;;
     OK (shift_state r1 (4 * len P1) st')).
Proof.
  intros Hlens Hcw Hc Hnew.
  rewrite !(parse_field_unfold _ _ _ _ _ _ _ Hlens).
  rewrite extract_container_shift by assumption.
  rewrite extract_field_shift by exact Hnew.
  destruct (extract_field rec (extract_container P2 st cw) name d pw)
    as [st2|e]; cbn [bind]; [|reflexivity].
  rewrite run_handler_shift by exact Hnew.
  destruct (run_handler st2 name d) as [st3|e]; reflexivity.
Qed.

Lemma parse_loop_shift (rec : descr -> str -> result odict) (P1 P2 : str)
    (r1 : odict) (fields : schema) :
  forall cs csF st stF,
    wf_run struct_ok fields cs = Some csF ->
    cs_ok cs ->
    0 <= container_fields_offset st ->
    (forall k, In k (map fst fields) -> od_get k r1 = None) ->
    parse_loop rec P2 fields st = OK stF ->
    parse_loop rec (P1 ++ P2) fields (shift_state r1 (4 * len P1) st)
    = OK (shift_state r1 (4 * len P1) stF).
Proof.
  induction fields as [|[name d] rest IH];
    intros cs csF st stF Hrun Hok Hc Hkeys Hloop.
  - now injection Hloop as <-.
  - apply wf_run_cons in Hrun. destruct Hrun as [cs1 [Hstep Hrun]].
    destruct (wf_step_facts cs cs1 d) as (cw & pw & Hfacts & _ & Hok1);
      [intros sub h _ Hs; exact (check_struct_wf sub Hs) | exact Hstep
       | exact Hok |].
    destruct Hfacts as (Hlens & _ & _ & Hcw & _).
    cbn [parse_loop] in Hloop |- *.
    apply bind_OK in Hloop. destruct Hloop as (st1 & Hst1 & Hloop).
    rewrite (parse_field_shift rec P1 P2 r1 st name d cw pw Hlens Hcw Hc).
    + rewrite Hst1. cbn [bind].
      apply (IH cs1 csF st1 stF Hrun Hok1); [| |exact Hloop].
      * destruct (parse_field_cursors _ _ _ _ _ _ _ _ Hlens Hst1)
          as (Hcfo & _ & _).
        rewrite Hcfo. destruct (first_packed_field st); lia.
      * intros k Hk. apply Hkeys. now right.
    + apply Hkeys. now left.
Qed.

Lemma extract_container_app_l (P1 P2 : str) (st : parse_state) (cw : Z) :
  (first_packed_field st = true ->
   0 <= container_fields_offset st
   /\ container_fields_offset st mod 8 = 0
   /\ 0 <= cw /\ cw mod 8 = 0
   /\ container_fields_offset st + cw <= 4 * len P1) ->
  extract_container (P1 ++ P2) st cw = extract_container P1 st cw.
Proof.
  intros H. unfold extract_container.
  destruct (first_packed_field st); [|reflexivity].
  destruct (H eq_refl) as (Ht & Htm & Hcw & Hcm & Hle).
  destruct (container_slice P1 (container_fields_offset st) cw Ht Htm Hcw
              Hcm Hle) as (Hq1 & Hq2 & _).
  rewrite Hq2, Hq1. f_equal.
  apply py_slice_app_l.
  - split; [apply Z.div_pos; lia|].
    assert (0 <= cw / 4) by (apply Z.div_pos; lia). lia.
  - Z.div_mod_to_equations. lia.
Qed.

(** Decoding a well-formed run of fields does not look past the
    validated length of the run. *)
Lemma parse_loop_payload_prefix (rec : descr -> str -> result odict)
    (P1 P2 : str) (fields : schema) :
  forall cs st stF pst,
    wf_run struct_ok fields cs = Some Closed ->
    cs_ok cs ->
    check_agrees cs st ->
    parse_agrees cs (total_length_sum_bits st) pst ->
    0 <= total_length_sum_bits st ->
    total_length_sum_bits st mod 8 = 0 ->
    check_loop struct_length fields st = OK stF ->
    total_length_sum_bits stF <= 4 * len P1 ->
    parse_loop rec (P1 ++ P2) fields pst = parse_loop rec P1 fields pst.
Proof.
  induction fields as [|[name d] rest IH];
    intros cs st stF pst Hrun Hok Hagr Hpagr Htot Htotm Hchk HF.
  - reflexivity.
  - apply wf_run_cons in Hrun. destruct Hrun as [cs1 [Hstep Hrun]].
    destruct (wf_step_facts cs cs1 d) as (cw & pw & Hfacts & -> & Hok1);
      [intros sub h _ Hwf; exact (check_struct_wf sub Hwf) | exact Hstep
       | exact Hok |].
    destruct (check_field_step cs d cw pw st name Hfacts Hagr)
      as (st1 & Hchk1 & Hagr1 & Hsum & Htot1).
    apply check_loop_cons in Hchk. destruct Hchk as (st1' & Hchk1' & HchkF).
    assert (st1' = st1) by congruence. subst st1'.
    destruct (check_loop_wf rest (nested_lengths_ok_all rest)
                _ _ st1 Hrun Hok1 Hagr1)
      as (stF' & HchkF' & _ & _ & Hbound & _ & _).
    assert (stF' = stF) by congruence. subst stF'.
    cbn [cs_pending] in Hbound.
    pose proof Hfacts as (Hlen & Hpw & Hroom & Hcw & Hmod & Hopen & Hkind).
    cbn [parse_loop].
    assert (Hfield : parse_field rec (P1 ++ P2) pst name d
                     = parse_field rec P1 pst name d).
    { rewrite !(parse_field_unfold _ _ _ _ _ _ _ Hlen).
      rewrite extract_container_app_l; [reflexivity|].
      intros Hf. destruct Hpagr as [Hcfo Hcs].
      destruct cs as [|o c].
      - cbn [cs_pending] in *. rewrite Hcfo, Z.add_0_r.
        split_ands; auto. lia.
      - destruct Hcs as [Hf' _]. congruence. }
    rewrite Hfield.
    destruct (parse_field rec P1 pst name d) as [pst1|e] eqn:Hpst1;
      cbn [bind]; [|reflexivity].
    apply (IH _ st1 stF pst1 Hrun Hok1 Hagr1); auto.
    + eapply parse_field_agrees; eauto.
    + destruct Htot1 as [-> | ->]; lia.
    + destruct Htot1 as [-> | ->]; [exact Htotm|].
      rewrite Z.add_mod, Htotm, Hmod by lia. reflexivity.
Qed.

Lemma parse_field_first_reset (rec : descr -> str -> result odict) (hex : str)
    (st : parse_state) (name : string) (d : descr) :
  first_packed_field st = true ->
  parse_field rec hex st name d
  = parse_field rec hex
      (mkParse (fields_parsed st) (container_fields_offset st) 0 true [])
      name d.
Proof.
  intros Hf. unfold parse_field.
  destruct (field_lengths d) as [[cw pw]|e]; cbn [bind]; [|reflexivity].
  unfold extract_container. rewrite Hf. reflexivity.
Qed.

Lemma check_input_OK (hex : str) (fields : schema) :
  check_input hex fields = OK tt ->
  len hex mod 2 = 0 /\ check_struct fields = OK (len hex * 4).
Proof.
  unfold check_input.
  destruct (Z.eqb_spec (len hex mod 2) 0) as [Hev|]; cbn [negb];
    [|discriminate].
  destruct (check_struct fields) as [n|e]; cbn [bind]; [|discriminate].
  destruct (Z.eqb_spec n (len hex * 4)) as [->|]; cbn [negb];
    [auto | discriminate].
Qed.

Lemma parse_struct_from_hex_OK (fields : schema) (hex : str) (r : odict) :
  parse_struct_from_hex fields hex = OK r ->
  len hex mod 2 = 0
  /\ check_struct fields = OK (len hex * 4)
  /\ exists stF, parse_loop parse_nested hex fields parse_init = OK stF
                 /\ fields_parsed stF = r.
Proof.
  intros H. pose proof (parse_struct_from_hex_loop _ _ _ H) as Hloop.
  unfold parse_struct_from_hex, parse_body in H.
  apply bind_OK in H. destruct H as ([] & Hin & _).
  apply check_input_OK in Hin. destruct Hin. auto.
Qed.

Lemma parse_struct_from_hex_app_eq (pre post : schema) (P1 P2 : str)
    (r1 r2 : odict) :
  well_formed pre = true -> well_formed post = true ->
  keys_unique (pre ++ post) = true ->
  parse_struct_from_hex pre P1 = OK r1 ->
  parse_struct_from_hex post P2 = OK r2 ->
  parse_struct_from_hex (pre ++ post) (P1 ++ P2) = OK (r1 ++ r2).
Proof.
  intros Hwf1 Hwf2 Hkeys H1 H2.
  apply parse_struct_from_hex_OK in H1, H2.
  destruct H1 as (Hev1 & Hchk1 & stF1 & Hloop1 & Hr1).
  destruct H2 as (Hev2 & Hchk2 & stF2 & Hloop2 & Hr2).
  pose proof (well_formed_run _ Hwf1) as Hrun1.
  pose proof (well_formed_run _ Hwf2) as Hrun2.
  pose proof (len_nonneg P1) as Hl1.
  unfold parse_struct_from_hex, parse_body, check_input.
  rewrite len_app, (check_struct_app_eq pre post Hwf1), Hchk1, Hchk2.
  cbn [bind].
  replace ((len P1 + len P2) mod 2 =? 0) with true
    by (symmetry; apply Z.eqb_eq; Z.div_mod_to_equations; lia).
  replace (len P1 * 4 + len P2 * 4 =? (len P1 + len P2) * 4) with true
    by (symmetry; apply Z.eqb_eq; lia).
  cbn [negb bind]. rewrite parse_loop_app.
  destruct (check_struct_total pre _ Hchk1) as (cst1 & Hc1 & Htot1).
  rewrite (parse_loop_payload_prefix parse_nested P1 P2 pre
             Closed (mkCheck 0 0 0) cst1 parse_init Hrun1 I).
  2:{ split; [reflexivity | discriminate]. }
  2:{ split; reflexivity. }
  2:{ cbn. lia. }
  2:{ reflexivity. }
  2:{ exact Hc1. }
  2:{ lia. }
  rewrite Hloop1. cbn [bind].
  destruct (parse_loop_agrees parse_nested P1 pre Closed Closed
              (mkCheck 0 0 0) parse_init stF1 Hrun1 I)
    as (cst1' & Hc1' & [Hcfo Hfirst] & _ & _); auto.
  { split; [reflexivity | discriminate]. }
  { split; reflexivity. }
  assert (cst1' = cst1) by congruence. subst cst1'.
  cbn [cs_pending] in Hcfo. rewrite Z.add_0_r, Htot1 in Hcfo.
  destruct post as [|[name d] rest].
  - cbn [parse_loop bind]. cbn in Hloop2. injection Hloop2 as <-.
    cbn in Hr2. subst r2. now rewrite Hr1, app_nil_r.
  - assert (Hshift :
      parse_loop parse_nested (P1 ++ P2) ((name, d) :: rest) stF1
      = parse_loop parse_nested (P1 ++ P2) ((name, d) :: rest)
          (shift_state r1 (4 * len P1) parse_init)).
    { cbn [parse_loop]. rewrite parse_field_first_reset by exact Hfirst.
      rewrite Hr1, Hcfo.
      assert (Hst : shift_state r1 (4 * len P1) parse_init
                    = mkParse r1 (len P1 * 4) 0 true []).
      { unfold shift_state, parse_init.
        cbn [fields_parsed container_fields_offset packed_field_offset
             first_packed_field container_value].
        rewrite app_nil_r. f_equal. lia. }
      rewrite Hst. reflexivity. }
    rewrite Hshift.
    rewrite (parse_loop_shift parse_nested P1 P2 r1 ((name, d) :: rest)
               Closed Closed parse_init stF2 Hrun2 I).
    + cbn [bind]. unfold shift_state. cbn [fields_parsed]. now rewrite Hr2.
    + cbn. lia.
    + intros k Hk.
      destruct (od_get k r1) eqn:Hget; [|reflexivity].
      exfalso. apply (keys_unique_disjoint _ _ k Hkeys Hk).
      pose proof (parse_loop_keys parse_nested P1 pre
                    (keys_unique_prefix _ _ Hkeys) parse_init stF1
                    (fun _ _ => eq_refl) Hloop1) as Hk1.
      cbn [fields_parsed parse_init map app] in Hk1.
      rewrite <- Hk1, Hr1. apply od_get_in. congruence.
    + exact Hloop2.
Qed.

(** X24. Decoding is compositional: when two well-formed schemas with
    distinct field names decode the payloads [P1] and [P2], their
    concatenation decodes [P1 ++ P2] to the concatenation of the two
    results. *)
Theorem parse_struct_from_hex_app (pre post : schema) (P1 P2 : str)
    (r1 r2 : odict) :
  well_formed pre = true -> well_formed post = true ->
  keys_unique (pre ++ post) = true ->
  parse_struct_from_hex pre P1 = OK r1 ->
  parse_struct_from_hex post P2 = OK r2 ->
  parse_struct_from_hex (pre ++ post) (P1 ++ P2) = OK (r1 ++ r2).
Proof. exact (parse_struct_from_hex_app_eq pre post P1 P2 r1 r2). Qed.

Lemma parse_struct_from_hex_app_witness :
  parse_struct_from_hex
    ([("a", Packed 5 TYPE_8_BITS None); ("b", Packed 3 TYPE_8_BITS None)]
     ++ [("s", TypeString 16 None); ("v", Simple TYPE_16_BITS)])
    (txt "E3" ++ txt "4142f135")
  = OK ([("a", VInt 3); ("b", VInt 7)]
        ++ [("s", VStr (txt "AB")); ("v", VInt 0x35f1)]).
Proof.
  apply parse_struct_from_hex_app; vm_compute; reflexivity.
Defined.

(** ** Negative byte positions *)

(** X25. [get_byte_from_hex] with a negative position follows Python's
    slices: position [-1] raises ValueError on every text (the slice
    [s[-2:0]] is empty), and on a text of even length a position [-k]
    with [k >= 2] and [2*k <= len(s)] is the byte [k] places before the
    end, that is byte [len(s)/2 - k]. *)
Theorem get_byte_from_hex_negative (hex_string : str) :
  Tools.get_byte_from_hex (-1) hex_string = Err ValueError
  /\ forall k,
       len hex_string mod 2 = 0 -> 2 <= k -> 2 * k <= len hex_string ->
       Tools.get_byte_from_hex (- k) hex_string
       = Tools.get_byte_from_hex (len hex_string / 2 - k) hex_string.
Proof.
  pose proof (len_nonneg hex_string) as Hl. split.
  - unfold Tools.get_byte_from_hex. rewrite py_slice_empty; [reflexivity|].
    unfold slice_bound.
    destruct (Z.ltb_spec (2 * (-1 + 1)) 0);
      destruct (Z.ltb_spec (2 * -1) 0); lia.
  - intros k Hev Hk Hle. unfold Tools.get_byte_from_hex. f_equal.
    assert (Hh : 2 * (len hex_string / 2) = len hex_string)
      by (Z.div_mod_to_equations; lia).
    unfold py_slice. cbv zeta. unfold slice_bound.
    destruct (Z.ltb_spec (2 * - k) 0); [|lia].
    destruct (Z.ltb_spec (2 * (- k + 1)) 0); [|lia].
    destruct (Z.ltb_spec (2 * (len hex_string / 2 - k)) 0); [lia|].
    destruct (Z.ltb_spec (2 * (len hex_string / 2 - k + 1)) 0); [lia|].
    f_equal; [f_equal|f_equal; f_equal]; lia.
Qed.

Lemma get_byte_from_hex_negative_witness :
  Tools.get_byte_from_hex (-1) (txt "") = Err ValueError
  /\ Tools.get_byte_from_hex (-1) (txt "abc") = Err ValueError
  /\ Tools.get_byte_from_hex (- 2) (txt "aabbcc")
     = Tools.get_byte_from_hex (len (txt "aabbcc") / 2 - 2) (txt "aabbcc").
Proof.
  split; [|split].
  - apply (proj1 (get_byte_from_hex_negative (txt ""))).
  - apply (proj1 (get_byte_from_hex_negative (txt "abc"))).
  - apply (proj2 (get_byte_from_hex_negative (txt "aabbcc")) 2).
    + reflexivity.
    + lia.
    + vm_compute. discriminate.
Defined.
